(** * Bybit order book: the state reconstruction code of [src/orderbook.py]

    A shallow embedding of the class [BybitOrderBook]: the book held in
    [self.order_book], the lock [self.lock], the records sent to the module
    logger, and the methods [handle_message], [_update_order_book],
    [_update_side] and [get_order_book]. *)

From Stdlib Require Import ZArith List String Ascii Bool Lia.
From Stdlib Require Import Sorted Permutation.
From Stdlib Require Import Floats.SpecFloat.
Import ListNotations.

Local Open Scope string_scope.
Local Open Scope list_scope.
Local Open Scope Z_scope.

(** ** Python floats

    A Python [float] is an IEEE 754 binary64 number.  The code only parses
    floats from text and compares them ([==], [>], and [<] inside [sorted]),
    so the values are the Standard Library's [spec_float] and the comparisons
    its [SFeqb] and [SFltb]. *)

Module PyFloat.

Definition float : Type := spec_float.

Definition prec : Z := 53.
Definition emax : Z := 1024.

Definition zero : float := S754_zero false.
Definition nan : float := S754_nan.

(** [x == y], [x < y] and [x > y] on floats. *)
Definition eqb (x y : float) : bool := SFeqb x y.
Definition ltb (x y : float) : bool := SFltb x y.
Definition gtb (x y : float) : bool := SFltb y x.
Definition leb (x y : float) : bool := SFleb x y.

Definition is_nan (x : float) : bool :=
  match x with S754_nan => true | _ => false end.

(** *** [float(text)]

    The grammar of the Python reference for the argument of [float]:
    surrounding whitespace (the characters 9 to 13 and the space) is
    stripped, then an optional sign, then [nan],
    [inf] or [infinity] in any case, or a decimal number with an optional
    fraction and an optional exponent; a single underscore may separate two
    digits.  Only ASCII text is covered.  The decimal value is rounded to the
    nearest binary64, ties to even. *)

Definition is_space (c : ascii) : bool :=
  let n := N_of_ascii c in
  (((9 <=? n) && (n <=? 13)) || (n =? 32))%N.

Fixpoint lstrip (s : list ascii) : list ascii :=
  match s with
  | c :: s' => if is_space c then lstrip s' else s
  | [] => []
  end.

Definition strip (s : list ascii) : list ascii :=
  rev (lstrip (rev (lstrip s))).

Definition lower (c : ascii) : ascii :=
  let n := N_of_ascii c in
  if ((65 <=? n) && (n <=? 90))%N then ascii_of_N (n + 32) else c.

Definition digit_of (c : ascii) : option N :=
  let n := N_of_ascii c in
  if ((48 <=? n) && (n <=? 57))%N then Some (n - 48)%N else None.

(** The rest of a [digitpart] after its first digit: the value read so far,
    the number of digits read, and the text left. *)
Fixpoint digitpart_tail (acc : N) (cnt : N) (s : list ascii)
  : N * N * list ascii :=
  match s with
  | c :: s' =>
      match digit_of c with
      | Some d => digitpart_tail (10 * acc + d)%N (cnt + 1)%N s'
      | None =>
          if Ascii.eqb c "_" then
            match s' with
            | c' :: s'' =>
                match digit_of c' with
                | Some d => digitpart_tail (10 * acc + d)%N (cnt + 1)%N s''
                | None => (acc, cnt, s)
                end
            | [] => (acc, cnt, s)
            end
          else (acc, cnt, s)
      end
  | [] => (acc, cnt, [])
  end.

Definition digitpart (s : list ascii) : option (N * N * list ascii) :=
  match s with
  | c :: s' =>
      match digit_of c with
      | Some d => Some (digitpart_tail d 1%N s')
      | None => None
      end
  | [] => None
  end.

Definition sign_of (s : list ascii) : bool * list ascii :=
  match s with
  | c :: s' =>
      if Ascii.eqb c "-" then (true, s')
      else if Ascii.eqb c "+" then (false, s')
      else (false, s)
  | [] => (false, [])
  end.

(** [number]: the digits as one integer, the decimal exponent that the
    fraction contributes, and the text left. *)
Definition number (s : list ascii) : option (N * Z * list ascii) :=
  match digitpart s with
  | Some (i, _, rest) =>
      match rest with
      | c :: rest' =>
          if Ascii.eqb c "." then
            match digitpart rest' with
            | Some (f, k, rest'') =>
                Some ((i * 10 ^ k + f)%N, - Z.of_N k, rest'')
            | None => Some (i, 0, rest')
            end
          else Some (i, 0, rest)
      | [] => Some (i, 0, [])
      end
  | None =>
      match s with
      | c :: rest' =>
          if Ascii.eqb c "." then
            match digitpart rest' with
            | Some (f, k, rest'') => Some (f, - Z.of_N k, rest'')
            | None => None
            end
          else None
      | [] => None
      end
  end.

(** [exponent]: when the text does not start with a complete exponent,
    nothing is consumed. *)
Definition exponent (s : list ascii) : Z * list ascii :=
  match s with
  | c :: s' =>
      if Ascii.eqb (lower c) "e" then
        let '(neg, s'') := sign_of s' in
        match digitpart s'' with
        | Some (e, _, rest) => ((if neg then - Z.of_N e else Z.of_N e), rest)
        | None => (0, s)
        end
      else (0, s)
  | [] => (0, [])
  end.

(** The binary64 nearest to [m * 10 ^ e], with sign [sx]. *)
Definition of_decimal (sx : bool) (m : N) (e : Z) : float :=
  match m with
  | N0 => S754_zero sx
  | Npos p =>
      match e with
      | Zneg k =>
          let '(mz, ez, lz) :=
            SFdiv_core_binary prec emax (Zpos p) 0 (Zpos (10 ^ k)) 0 in
          binary_round_aux prec emax sx mz ez lz
      | _ => binary_round prec emax sx (p * Z.to_pos (10 ^ e)) 0
      end
  end.

Definition float_of_chars (s : list ascii) : option float :=
  let '(neg, body) := sign_of (strip s) in
  let word := string_of_list_ascii (map lower body) in
  if String.eqb word "nan" then Some S754_nan
  else if String.eqb word "inf" || String.eqb word "infinity"
  then Some (S754_infinity neg)
  else
    match number body with
    | Some (m, e1, rest) =>
        match exponent rest with
        | (e2, []) => Some (of_decimal neg m (e1 + e2))
        | (_, _ :: _) => None
        end
    | None => None
    end.

End PyFloat.

(** ** Data model *)

(** A level is the two-element list [[price, quantity]]. *)
Definition level : Type := PyFloat.float * PyFloat.float.

(** The two keys of [self.order_book]; [_update_side] is never called with
    another key. *)
Inductive side : Type := bids | asks.

Definition side_eqb (s1 s2 : side) : bool :=
  match s1, s2 with
  | bids, bids | asks, asks => true
  | _, _ => false
  end.

(** The object [self]: the attributes read or written by the methods.
    [lock] is [true] while [self.lock], a [threading.Lock], is held; the
    order book dict is the pair of its two entries. *)
Record BybitOrderBook : Type := mkBook {
  symbol : string;
  depth : Z;
  testnet : bool;
  order_book_bids : list level;
  order_book_asks : list level;
  lock : bool
}.

Definition order_book (self : BybitOrderBook) (s : side) : list level :=
  match s with
  | bids => order_book_bids self
  | asks => order_book_asks self
  end.

Definition set_order_book (s : side) (v : list level) (self : BybitOrderBook)
  : BybitOrderBook :=
  match s with
  | bids => mkBook (symbol self) (depth self) (testnet self)
                   v (order_book_asks self) (lock self)
  | asks => mkBook (symbol self) (depth self) (testnet self)
                   (order_book_bids self) v (lock self)
  end.

Definition set_lock (b : bool) (self : BybitOrderBook) : BybitOrderBook :=
  mkBook (symbol self) (depth self) (testnet self)
         (order_book_bids self) (order_book_asks self) b.

(** The feed message, a dict.  [data] is the dict under its key ["data"]:
    the entries ["b"] and ["a"], each a list of [[price, quantity]] pairs of
    text when present, and the names of the other keys it holds (["s"],
    ["u"], ["seq"], ...), whose values the code never reads. *)
Definition pairs : Type := list (string * string).

Record data : Type := mkData {
  data_b : option pairs;
  data_a : option pairs;
  data_other : list string
}.

Record message : Type := mkMessage {
  message_type : option string;
  message_data : option data
}.

(** [{}], and the truth value of a dict: false exactly when it has no key. *)
Definition empty_dict : data := mkData None None [].

Definition truthy (d : data) : bool :=
  match data_b d, data_a d, data_other d with
  | None, None, [] => false
  | _, _, _ => true
  end.

(** [message.get("data", {})] and [data.get(key, [])]. *)
Definition get_data (m : message) : data :=
  match message_data m with
  | Some d => d
  | None => empty_dict
  end.

Definition get_pairs (d : data) (s : side) : pairs :=
  match (match s with bids => data_b d | asks => data_a d end) with
  | Some l => l
  | None => []
  end.

(** The records sent to the module logger, with their level. *)
Inductive levelname : Type := INFO | WARNING | ERROR.

Inductive log_record : Type :=
| Initialized (symbol : string) (depth : Z) (testnet : bool)
| Received (m : message)
| EmptyData
| UnknownType (t : option string)
| Updated (nbids nasks : nat)
| Returning (nbids nasks : nat).

Definition record_level (r : log_record) : levelname :=
  match r with
  | EmptyData | UnknownType _ => WARNING
  | _ => INFO
  end.


(** ** Effects

    A method is a program over the atomic actions it performs on the state
    shared between threads: acquiring and releasing [self.lock], reading and
    assigning one entry of [self.order_book], reading [self.depth], and
    sending a record to the logger.  Parsing and sorting are local
    computations.  One program text serves the sequential runs ([run]) and
    the interleaved ones ([step]). *)
Inductive exn : Type :=
| ValueError (text : string).

Inductive action : Type -> Type :=
| Acquire : action unit
| Release : action unit
| ReadSide (s : side) : action (list level)
| WriteSide (s : side) (v : list level) : action unit
| ReadDepth : action Z
| Log (r : log_record) : action unit.

Inductive prog (A : Type) : Type :=
| Ret (a : A)
| Throw (e : exn)
| Do (X : Type) (a : action X) (k : X -> prog A).
Arguments Ret {A} a.
Arguments Throw {A} e.
Arguments Do {A X} a k.

Fixpoint bind {A B} (m : prog A) (k : A -> prog B) : prog B :=
  match m with
  | Ret a => k a
  | Throw e => Throw e
  | Do a h => Do a (fun x => bind (h x) k)
  end.

Notation "x <- m ;; k" := (bind m (fun x => k))
  (at level 61, m at next level, right associativity).
Notation "m ;;; k" := (bind m (fun _ => k))
  (at level 61, right associativity).

Definition acquire : prog unit := Do Acquire Ret.
Definition release : prog unit := Do Release Ret.
Definition read_side (s : side) : prog (list level) := Do (ReadSide s) Ret.
Definition write_side (s : side) (v : list level) : prog unit :=
  Do (WriteSide s v) Ret.
Definition read_depth : prog Z := Do ReadDepth Ret.
Definition logger (r : log_record) : prog unit := Do (Log r) Ret.

(** [with self.lock: body]: the lock is released when the body returns and
    when it raises. *)
Fixpoint release_after {A} (body : prog A) : prog A :=
  match body with
  | Ret a => Do Release (fun _ => Ret a)
  | Throw e => Do Release (fun _ => Throw e)
  | Do a k => Do a (fun x => release_after (k x))
  end.

Definition with_lock {A} (body : prog A) : prog A :=
  Do Acquire (fun _ => release_after body).

(** The shared state: the object and the records logged so far, oldest
    first. *)
Record world : Type := mkWorld {
  self : BybitOrderBook;
  records : list log_record
}.

(** One action on the shared state; [None] when it cannot proceed.
    [threading.Lock] is not reentrant: acquiring it while it is held blocks,
    whoever holds it. *)
Definition perform {X} (a : action X) (w : world) : option (X * world) :=
  match a in action X return option (X * world) with
  | Acquire =>
      if lock (self w) then None
      else Some (tt, mkWorld (set_lock true (self w)) (records w))
  | Release => Some (tt, mkWorld (set_lock false (self w)) (records w))
  | ReadSide s => Some (order_book (self w) s, w)
  | WriteSide s v => Some (tt, mkWorld (set_order_book s v (self w)) (records w))
  | ReadDepth => Some (depth (self w), w)
  | Log r => Some (tt, mkWorld (self w) (records w ++ [r]))
  end.

(** A call that runs alone returns, raises, or blocks for ever on the lock;
    the world of a blocked call is the one it is stuck in. *)
Inductive result (A : Type) : Type :=
| Return (a : A) (w : world)
| Raise (e : exn) (w : world)
| Blocked (w : world).
Arguments Return {A} a w.
Arguments Raise {A} e w.
Arguments Blocked {A} w.

Definition world_of {A} (r : result A) : world :=
  match r with
  | Return _ w | Raise _ w | Blocked w => w
  end.

Fixpoint run {A} (p : prog A) (w : world) : result A :=
  match p with
  | Ret a => Return a w
  | Throw e => Raise e w
  | Do a k =>
      match perform a w with
      | Some (x, w') => run (k x) w'
      | None => Blocked w
      end
  end.

(** [float(text)] on a text token: the float, or the [ValueError]. *)
Definition float (text : string) : exn + PyFloat.float :=
  match PyFloat.float_of_chars (list_ascii_of_string text) with
  | Some x => inr x
  | None => inl (ValueError text)
  end.

(** A local computation that may raise, inside a program. *)
Definition lift {A} (r : exn + A) : prog A :=
  match r with
  | inl e => Throw e
  | inr a => Ret a
  end.

(** ** [sorted] and slices *)

(** [sorted(l, key=lambda x: x[0], reverse=...)]: a stable sort that compares
    keys with [<] only.  With [reverse=True] CPython reverses the list, sorts
    it and reverses the result, which keeps the sort stable.  Every stable
    sort gives this result when [<] orders the keys present, that is when no
    key is NaN. *)
Fixpoint insert (x : level) (l : list level) : list level :=
  match l with
  | [] => [x]
  | y :: l' =>
      if PyFloat.ltb (fst y) (fst x) then y :: insert x l' else x :: y :: l'
  end.

Definition sort (l : list level) : list level := fold_right insert [] l.

Definition sorted (l : list level) (reverse : bool) : list level :=
  if reverse then rev (sort (rev l)) else sort l.

(** [l[:n]]; a negative [n] counts from the end. *)
Definition slice_to {A} (n : Z) (l : list A) : list A :=
  if (n <? 0)%Z then firstn (Z.to_nat (Z.of_nat (List.length l) + n)) l
  else firstn (Z.to_nat n) l.

(** ** The methods *)

(** [BybitOrderBook(symbol, depth, testnet)] in a process that has logged
    nothing yet. *)
Definition __init__ (symbol : string) (depth : Z) (testnet : bool) : world :=
  mkWorld (mkBook symbol depth testnet [] [] false)
          [Initialized symbol depth testnet].

(** The loop of [_update_side] over [book_side] with its [break]: [Some] of
    the list after the [pop] or the item assignment at the first level whose
    price equals [price], [None] when the loop ends without a [break]. *)
Fixpoint scan (book_side : list level) (price quantity : PyFloat.float)
  : option (list level) :=
  match book_side with
  | [] => None
  | (existing_price, q) :: rest =>
      if PyFloat.eqb existing_price price then
        if PyFloat.eqb quantity PyFloat.zero then Some rest
        else Some ((price, quantity) :: rest)
      else
        match scan rest price quantity with
        | Some rest' => Some ((existing_price, q) :: rest')
        | None => None
        end
  end.

(** [book_side] is the list object held by [self.order_book[side]]: [pop],
    the item assignment and [append] change the shared entry. *)
Definition _update_side (s : side) (price quantity : PyFloat.float)
  : prog unit :=
  book_side <- read_side s ;;
  match scan book_side price quantity with
  | Some l => write_side s l
  | None =>
      if PyFloat.gtb quantity PyFloat.zero
      then write_side s (book_side ++ [(price, quantity)])
      else Ret tt
  end ;;;
  book_side <- read_side s ;;
  write_side s (sorted book_side (side_eqb s bids)) ;;;
  l <- read_side s ;;
  n <- read_depth ;;
  write_side s (slice_to n l).

(** One [for price, quantity in ...] loop of [_update_order_book]. *)
Fixpoint update_each (s : side) (l : pairs) : prog unit :=
  match l with
  | [] => Ret tt
  | (price, quantity) :: l' =>
      price <- lift (float price) ;;
      quantity <- lift (float quantity) ;;
      _update_side s price quantity ;;;
      update_each s l'
  end.

Definition _update_order_book (bids_ asks_ : pairs) : prog unit :=
  with_lock (update_each bids bids_ ;;; update_each asks asks_).

(** The list comprehension
    [[[float(price), float(quantity)] for price, quantity in l]]: the list,
    or the first [ValueError] in the order of evaluation. *)
Fixpoint parse_levels (l : pairs) : exn + list level :=
  match l with
  | [] => inr []
  | (price, quantity) :: l' =>
      match float price with
      | inl e => inl e
      | inr price =>
          match float quantity with
          | inl e => inl e
          | inr quantity =>
              match parse_levels l' with
              | inl e => inl e
              | inr rest => inr ((price, quantity) :: rest)
              end
          end
      end
  end.

Definition type_is (m : message) (t : string) : bool :=
  match message_type m with
  | Some t' => String.eqb t' t
  | None => false
  end.

Definition handle_message (m : message) : prog unit :=
  logger (Received m) ;;;
  let data := get_data m in
  if negb (truthy data) then
    logger EmptyData
  else
    with_lock
      (if type_is m "snapshot" then
         b <- lift (parse_levels (get_pairs data bids)) ;;
         write_side bids b ;;;
         a <- lift (parse_levels (get_pairs data asks)) ;;
         write_side asks a
       else if type_is m "delta" then
         _update_order_book (get_pairs data bids) (get_pairs data asks)
       else
         logger (UnknownType (message_type m))) ;;;
    b <- read_side bids ;;
    a <- read_side asks ;;
    logger (Updated (List.length b) (List.length a)).

(** The two data frames are copies of the two lists. *)
Definition get_order_book : prog (list level * list level) :=
  with_lock
    (bids_df <- read_side bids ;;
     asks_df <- read_side asks ;;
     logger (Returning (List.length bids_df) (List.length asks_df)) ;;;
     Ret (bids_df, asks_df)).

(** ** Interleaved runs

    The feed thread calls [handle_message] on the messages of its inbox, one
    after the other, whether the previous call returned or raised; every
    reader thread calls [get_order_book] again and again.  A step is one
    atomic action of one thread, or a call that ends and the next that
    starts. *)
Definition reading : Type := list level * list level.

Record config : Type := mkConfig {
  shared : world;
  feed : prog unit;
  inbox : list message;
  readers : nat -> prog reading
}.

Inductive event : Type :=
| Silent
| ReadReturns (i : nat) (v : reading).

Definition idle {A} (p : prog A) : bool :=
  match p with
  | Do _ _ => false
  | _ => true
  end.

Definition set_reader (i : nat) (p : prog reading)
  (rs : nat -> prog reading) : nat -> prog reading :=
  fun j => if Nat.eqb j i then p else rs j.

Inductive step : config -> event -> config -> Prop :=
| step_feed_action c X (a : action X) k x w' :
    feed c = Do a k ->
    perform a (shared c) = Some (x, w') ->
    step c Silent (mkConfig w' (k x) (inbox c) (readers c))
| step_feed_next c m rest :
    idle (feed c) = true ->
    inbox c = m :: rest ->
    step c Silent (mkConfig (shared c) (handle_message m) rest (readers c))
| step_reader_action c i X (a : action X) k x w' :
    readers c i = Do a k ->
    perform a (shared c) = Some (x, w') ->
    step c Silent
         (mkConfig w' (feed c) (inbox c) (set_reader i (k x) (readers c)))
| step_reader_return c i v :
    readers c i = Ret v ->
    step c (ReadReturns i v)
         (mkConfig (shared c) (feed c) (inbox c)
                   (set_reader i get_order_book (readers c))).

(** [execution c0 past c]: [c] is reached from [c0]; [past] lists the
    configurations gone through before [c], the latest first. *)
Inductive execution (c0 : config) : list config -> config -> Prop :=
| execution_start : execution c0 [] c0
| execution_step past c e c' :
    execution c0 past c -> step c e c' -> execution c0 (c :: past) c'.

Definition start (w : world) (msgs : list message) : config :=
  mkConfig w (Ret tt) msgs (fun _ => get_order_book).

(** ** Sequences of calls

    The states of the book between calls: a call of [handle_message], or of
    [_update_order_book] on its own, that has returned or raised. *)
Inductive call : Type :=
| Handle (m : message)
| UpdateOrderBook (bids_ asks_ : pairs).

Definition call_prog (c : call) : prog unit :=
  match c with
  | Handle m => handle_message m
  | UpdateOrderBook b a => _update_order_book b a
  end.

Definition finished {A} (r : result A) : bool :=
  match r with
  | Blocked _ => false
  | _ => true
  end.

Inductive reachable (allowed : call -> bool) (w0 : world) : world -> Prop :=
| reachable_start : reachable allowed w0 w0
| reachable_call c w :
    reachable allowed w0 w ->
    allowed c = true ->
    finished (run (call_prog c) w) = true ->
    reachable allowed w0 (world_of (run (call_prog c) w)).

(** ** The properties of a side *)

Definition before (s : side) (p1 p2 : PyFloat.float) : bool :=
  match s with
  | bids => PyFloat.gtb p1 p2
  | asks => PyFloat.ltb p1 p2
  end.

Fixpoint strictly_ordered (s : side) (l : list level) : bool :=
  match l with
  | x :: l' =>
      match l' with
      | y :: _ => before s (fst x) (fst y) && strictly_ordered s l'
      | [] => true
      end
  | [] => true
  end.

Fixpoint no_duplicate_price (l : list level) : bool :=
  match l with
  | x :: l' =>
      forallb (fun y => negb (PyFloat.eqb (fst x) (fst y))) l'
      && no_duplicate_price l'
  | [] => true
  end.

Definition within_depth (n : Z) (l : list level) : bool :=
  Z.of_nat (List.length l) <=? n.

Definition side_invariant (self : BybitOrderBook) (s : side) : bool :=
  strictly_ordered s (order_book self s)
  && no_duplicate_price (order_book self s)
  && within_depth (depth self) (order_book self s).

Definition quantities_positive (l : list level) : bool :=
  forallb (fun x => PyFloat.gtb (snd x) PyFloat.zero) l.

Definition present (price : PyFloat.float) (l : list level) : bool :=
  existsb (fun x => PyFloat.eqb (fst x) price) l.

Definition without (price : PyFloat.float) (l : list level) : list level :=
  filter (fun x => negb (PyFloat.eqb (fst x) price)) l.

Definition prices_numbers (l : list level) : bool :=
  forallb (fun x => negb (PyFloat.is_nan (fst x))) l.

(** Conditions on what the feed sends.  A snapshot side is tidy when its
    levels, if they all parse, come strictly ordered for the side, with
    prices that are numbers, and at most [n] of them; a delta is tidy when
    every price token that parses is a number. *)
Definition tidy_side (n : Z) (s : side) (l : list level) : bool :=
  strictly_ordered s l && prices_numbers l && within_depth n l.

Definition tidy_snapshot_side (n : Z) (s : side) (l : pairs) : bool :=
  match parse_levels l with
  | inr v => tidy_side n s v
  | inl _ => true
  end.

Definition price_number (p : string * string) : bool :=
  match float (fst p) with
  | inr x => negb (PyFloat.is_nan x)
  | inl _ => true
  end.

Definition tidy (n : Z) (c : call) : bool :=
  match c with
  | Handle m =>
      if type_is m "snapshot" then
        tidy_snapshot_side n bids (get_pairs (get_data m) bids)
        && tidy_snapshot_side n asks (get_pairs (get_data m) asks)
      else true
  | UpdateOrderBook b a => forallb price_number b && forallb price_number a
  end.

(** A snapshot side has positive quantities when its levels, if they all
    parse, have; a delta has sound quantities when every quantity token that
    parses is zero or more. *)
Definition positive_snapshot_side (l : pairs) : bool :=
  match parse_levels l with
  | inr v => quantities_positive v
  | inl _ => true
  end.

Definition quantity_sound (p : string * string) : bool :=
  match float (snd p) with
  | inr q => PyFloat.leb PyFloat.zero q
  | inl _ => true
  end.

Definition sound_quantities (c : call) : bool :=
  match c with
  | Handle m =>
      if type_is m "snapshot" then
        positive_snapshot_side (get_pairs (get_data m) bids)
        && positive_snapshot_side (get_pairs (get_data m) asks)
      else true
  | UpdateOrderBook b a =>
      forallb quantity_sound b && forallb quantity_sound a
  end.

Definition any_call (c : call) : bool := true.

(** A token that [float] rejects. *)
Definition malformed (p : string * string) : bool :=
  match float (fst p), float (snd p) with
  | inr _, inr _ => false
  | _, _ => true
  end.

(** The float written as [text]. *)
Definition num (text : string) : PyFloat.float :=
  match float text with
  | inr x => x
  | inl _ => PyFloat.nan
  end.

(** ** Inputs of the examples *)

Definition snapshot_message (b a : option pairs) : message :=
  mkMessage (Some "snapshot") (Some (mkData b a ["s"; "u"; "seq"])).

Definition delta_message (b a : option pairs) : message :=
  mkMessage (Some "delta") (Some (mkData b a ["s"; "u"; "seq"])).

(** The book of [main.py], and a book of depth 2. *)
Definition book50 : world := __init__ "BTCUSDT" 50 true.
Definition book2 : world := __init__ "BTCUSDT" 2 true.

(** A book of depth 50 after a snapshot with two bids and one ask. *)
Definition book50_live : world :=
  world_of
    (run (handle_message
            (snapshot_message (Some [("100", "1"); ("99", "1")])
                              (Some [("101", "1")])))
         book50).

(** The same book after a direct call of [_update_order_book]. *)
Definition book50_updated : world :=
  world_of
    (run (call_prog (UpdateOrderBook [("99.5", "2"); ("99", "0")]
                                     [("101", "3")]))
         book50_live).

(** A snapshot with the price 100 twice among its bids. *)
Definition duplicate_snapshot : message :=
  snapshot_message (Some [("100", "1"); ("100", "2")]) (Some []).

(** A snapshot with a bid of quantity zero. *)
Definition zero_snapshot : message :=
  snapshot_message (Some [("100", "0")]) (Some []).

(** A snapshot whose data has keys, and no level on either side. *)
Definition empty_sides_snapshot : message :=
  snapshot_message (Some []) (Some []).

(** A snapshot with a valid bid and an ask whose quantity is not a number. *)
Definition bad_ask_snapshot : message :=
  snapshot_message (Some [("100", "1")]) (Some [("101", "x")]).

(** A snapshot without the key ["a"], whose bid's price is not a number. *)
Definition bad_bids_only_snapshot : message :=
  snapshot_message (Some [("x", "1")]) None.

(** The messages of the depth scenario. *)
Definition three_bids_snapshot : message :=
  snapshot_message (Some [("100", "1"); ("99", "1"); ("98", "1")]) (Some []).

Definition delta_97 : message := delta_message (Some [("97", "1")]) (Some []).
Definition delta_101 : message := delta_message (Some [("101", "1")]) (Some []).

(** ** What a read sees

    The two sides of the book in a world, and [observed past v]: [v] was the
    content of the book at a configuration of [past] in which the lock was
    free, that is, at a point outside every critical section. *)
Definition view (w : world) : reading :=
  (order_book (self w) bids, order_book (self w) asks).

Definition observed (past : list config) (v : reading) : Prop :=
  exists c, In c past /\ lock (self (shared c)) = false /\ view (shared c) = v.

(** ** The apply sequence

    [applied msgs book]: the object after [handle_message] has run alone on
    each message of [msgs] in turn, from [book], every call having returned
    or raised; [None] when one of the calls blocks.  A configuration is at a
    point of the apply sequence when its object is the one that the messages
    taken from the inbox so far, all of them or all but the latest, leave
    when they are applied this way. *)
Definition outcome {A} (r : result A) : option BybitOrderBook :=
  match r with
  | Return _ w | Raise _ w => Some (self w)
  | Blocked _ => None
  end.

Definition apply_one (m : message) (book : BybitOrderBook)
  : option BybitOrderBook :=
  outcome (run (handle_message m) (mkWorld book [])).

Fixpoint applied (msgs : list message) (book : BybitOrderBook)
  : option BybitOrderBook :=
  match msgs with
  | [] => Some book
  | m :: rest =>
      match apply_one m book with
      | Some book' => applied rest book'
      | None => None
      end
  end.

Definition at_boundary (w0 : world) (msgs : list message) (c : config)
  : Prop :=
  exists done later,
    msgs = done ++ later ++ inbox c
    /\ (List.length later <= 1)%nat
    /\ applied done (self w0) = Some (self (shared c)).

(** One step of reader [i], when it has one. *)
Definition reader_step (i : nat) (c : config) : config :=
  match readers c i with
  | Do a k =>
      match perform a (shared c) with
      | Some (x, w') =>
          mkConfig w' (feed c) (inbox c) (set_reader i (k x) (readers c))
      | None => c
      end
  | _ => c
  end.

(** Reader 0 runs [get_order_book] alone on the live book while a delta
    message waits in the inbox. *)
Definition read0 : config := start book50_live [delta_97].
Definition read1 : config := reader_step 0 read0.
Definition read2 : config := reader_step 0 read1.
Definition read3 : config := reader_step 0 read2.
Definition read4 : config := reader_step 0 read3.
Definition read5 : config := reader_step 0 read4.
Definition read6 : config :=
  mkConfig (shared read5) (feed read5) (inbox read5)
           (set_reader 0 get_order_book (readers read5)).

(** A snapshot whose bids come in ascending order of price. *)
Definition ascending_bids_snapshot : message :=
  snapshot_message (Some [("98", "1"); ("100", "1"); ("99", "1")]) (Some []).

(** ** Auxiliary definitions of the proofs *)

(** [SFcompare] orders the floats that are not NaN like the lexicographic
    order [lex] on their [rank], a triple of integers. *)
Module FloatRank.
Import PyFloat.

Definition rank (x : float) : Z * Z * Z :=
  match x with
  | S754_zero _ | S754_nan => (0, 0, 0)
  | S754_infinity s => (if s then -2 else 2, 0, 0)
  | S754_finite s m e =>
      if s then (-1, - e, Zneg m) else (1, e, Zpos m)
  end.

Definition lex (a b : Z * Z * Z) : comparison :=
  let '(a1, a2, a3) := a in
  let '(b1, b2, b3) := b in
  match a1 ?= b1 with
  | Eq => match a2 ?= b2 with
          | Eq => a3 ?= b3
          | c => c
          end
  | c => c
  end.

End FloatRank.

(** The sequential effect of [_update_side] on the object. *)
Definition update_side (s : side) (price quantity : PyFloat.float)
  (self : BybitOrderBook) : BybitOrderBook :=
  let book_side := order_book self s in
  let book_side :=
    match scan book_side price quantity with
    | Some l => l
    | None =>
        if PyFloat.gtb quantity PyFloat.zero
        then book_side ++ [(price, quantity)]
        else book_side
    end in
  set_order_book s
    (slice_to (depth self) (sorted book_side (side_eqb s bids))) self.

(** The order of a side, as a relation on levels. *)
Definition precedes (s : side) (x y : level) : Prop :=
  before s (fst x) (fst y) = true.

(** The world with the lock taken, and with the lock free. *)
Definition locked (w : world) : world :=
  mkWorld (set_lock true (self w)) (records w).

Definition unlocked (w : world) : world :=
  mkWorld (set_lock false (self w)) (records w).

Definition logged (r : log_record) (w : world) : world :=
  mkWorld (self w) (records w ++ [r]).

(** A property of each side of the book, for a book of depth [n]. *)
Definition kept (n : Z) (P : side -> list level -> Prop)
  (self : BybitOrderBook) : Prop :=
  depth self = n /\ forall s, P s (order_book self s).

(** The thread that holds the lock. *)
Inductive owner : Type := Free | Feed | Reader (i : nat).

Definition owner_eqb (o1 o2 : owner) : bool :=
  match o1, o2 with
  | Free, Free | Feed, Feed => true
  | Reader i, Reader j => Nat.eqb i j
  | _, _ => false
  end.

(** Where the feed thread is in the call it runs: before its critical
    section, inside it, or after it.  [one_section ph p]: from phase [ph] the
    program [p] enters at most one critical section, assigns a side and
    releases the lock only inside it, and ends outside it.  A program that
    acquires the lock inside its critical section never goes further. *)
Inductive phase : Type := Before | Inside | After.

Definition in_section (ph : phase) : bool :=
  match ph with
  | Inside => true
  | _ => false
  end.

Definition next_phase {X} (a : action X) (ph : phase)
  (next : phase -> X -> Prop) : Prop :=
  match a in action X return (phase -> X -> Prop) -> Prop with
  | Acquire => fun next =>
      match ph with
      | Before => next Inside tt
      | Inside => True
      | After => False
      end
  | Release => fun next => ph = Inside /\ next After tt
  | ReadSide _ => fun next => forall l, next ph l
  | WriteSide _ _ => fun next => ph = Inside /\ next Inside tt
  | ReadDepth => fun next => forall d, next ph d
  | Log _ => fun next => next ph tt
  end next.

Fixpoint sections {A} (ph : phase) (final : phase -> Prop) (p : prog A)
  : Prop :=
  match p with
  | Ret _ | Throw _ => final ph
  | Do a k => next_phase a ph (fun h x => sections h final (k x))
  end.

Definition one_section {A} (ph : phase) (p : prog A) : Prop :=
  sections ph (fun h => in_section h = false) p.

(** The object that the call in progress leaves when it goes on alone. *)
Definition completion (ph : phase) (book : BybitOrderBook) (p : prog unit)
  : option BybitOrderBook :=
  outcome (run p (mkWorld (set_lock (in_section ph) book) [])).

(** The feed thread in phase [ph]: the messages taken so far are [done], the
    call in progress completes the apply sequence of [done], and before its
    critical section the object is still the one that the messages before
    the latest have left. *)
Definition feed_inv (w0 : world) (msgs : list message) (ph : phase)
  (c : config) : Prop :=
  one_section ph (feed c)
  /\ exists done,
       msgs = done ++ inbox c
       /\ completion ph (self (shared c)) (feed c) = applied done (self w0)
       /\ (ph = Before ->
           exists done' m,
             done = done' ++ [m]
             /\ applied done' (self w0)
                = Some (set_lock false (self (shared c)))).

(** A reader that holds the lock while the book shows [v], or has released
    it, only reads and logs, and returns [v]. *)
Definition side_of (v : reading) (s : side) : list level :=
  match s with
  | bids => fst v
  | asks => snd v
  end.

Definition next_reads {X} (a : action X) (held : bool) (v : reading)
  (next : bool -> X -> Prop) : Prop :=
  match a in action X return (bool -> X -> Prop) -> Prop with
  | Release => fun next => held = true /\ next false tt
  | ReadSide s => fun next => held = true /\ next true (side_of v s)
  | Log _ => fun next => next held tt
  | Acquire | WriteSide _ _ | ReadDepth => fun _ => False
  end next.

Fixpoint returns (held : bool) (v : reading) (p : prog reading) : Prop :=
  match p with
  | Ret x => held = false /\ x = v
  | Throw _ => False
  | Do a k => next_reads a held v (fun h x => returns h v (k x))
  end.

(** A reader about to take the lock. *)
Definition about_to_read (p : prog reading) : Prop :=
  match p with
  | Do a k =>
      match a in action X return (X -> prog reading) -> Prop with
      | Acquire => fun k => forall v, returns true v (k tt)
      | _ => fun _ => False
      end k
  | _ => False
  end.

Definition reader_inv (past : list config) (w : world) (held : bool)
  (p : prog reading) : Prop :=
  if held then returns true (view w) p /\ observed past (view w)
  else about_to_read p \/ exists v, returns false v p /\ observed past v.

Definition inv (w0 : world) (msgs : list message) (past : list config)
  (c : config) : Prop :=
  exists (o : owner) (ph : phase),
    lock (self (shared c)) = negb (owner_eqb o Free)
    /\ in_section ph = owner_eqb o Feed
    /\ feed_inv w0 msgs ph c
    /\ forall i, reader_inv past (shared c) (owner_eqb o (Reader i))
                            (readers c i).

(** ** Further definitions *)

(** The updates of a list of parsed levels applied to side [s] in turn. *)
Definition apply_updates (s : side) (v : list level) (self : BybitOrderBook)
  : BybitOrderBook :=
  fold_left (fun self x => update_side s (fst x) (snd x) self) v self.

(** A side in order, equal prices allowed: no level is followed by one that
    should come before it. *)
Fixpoint weakly_ordered (s : side) (l : list level) : bool :=
  match l with
  | x :: l' =>
      match l' with
      | y :: _ => negb (before s (fst y) (fst x)) && weakly_ordered s l'
      | [] => true
      end
  | [] => true
  end.

Definition not_after (s : side) (x y : level) : Prop :=
  before s (fst y) (fst x) = false.

(** One step of the feed thread, when it has one: its next action, or the
    next message of the inbox when no call is running. *)
Definition feed_step (c : config) : config :=
  match feed c with
  | Do a k =>
      match perform a (shared c) with
      | Some (x, w') => mkConfig w' (k x) (inbox c) (readers c)
      | None => c
      end
  | _ =>
      match inbox c with
      | m :: rest => mkConfig (shared c) (handle_message m) rest (readers c)
      | [] => c
      end
  end.

(** A thread whose next action is to acquire the lock. *)
Definition acquires {A} (p : prog A) : bool :=
  match p with
  | Do a _ => match a with Acquire => true | _ => false end
  | _ => false
  end.

(** A reader outside [get_order_book]'s critical section: about to acquire
    the lock, or holding the value it is about to return. *)
Definition reader_outside (p : prog reading) : bool :=
  match p with
  | Ret _ => true
  | _ => acquires p
  end.

(** The feed thread waits for a lock that is held while every reader is
    outside its critical section. *)
Definition feed_stuck (c : config) : Prop :=
  lock (self (shared c)) = true
  /\ acquires (feed c) = true
  /\ forall i, reader_outside (readers c i) = true.

(** Reader 0 has read the live book; the feed thread then takes a delta
    message, logs it and acquires the lock; reader 0 returns. *)
Definition stuck3 : config := feed_step (feed_step (feed_step read5)).
Definition stuck4 : config :=
  mkConfig (shared stuck3) (feed stuck3) (inbox stuck3)
           (set_reader 0 get_order_book (readers stuck3)).

(** ** The order on floats

    The facts about [==] and [<] that the sorting arguments need. *)

Module PyFloatFacts.
Import PyFloat FloatRank.

Lemma SFcompare_rank (x y : float) :
  SFcompare x y =
  if is_nan x || is_nan y then None else Some (lex (rank x) (rank y)).
Proof.
  destruct x as [sx|sx| |sx mx ex], y as [sy|sy| |sy my ey];
    try destruct sx; try destruct sy; try reflexivity.
  cbn [SFcompare rank lex is_nan orb].
  rewrite Z.compare_opp, (Z.compare_antisym ex ey).
  destruct (ex ?= ey); reflexivity.
Qed.

Lemma lex_Lt a b :
  lex a b = Lt <->
  let '(a1, a2, a3) := a in
  let '(b1, b2, b3) := b in
  a1 < b1 \/ (a1 = b1 /\ (a2 < b2 \/ (a2 = b2 /\ a3 < b3))).
Proof.
  destruct a as [[a1 a2] a3], b as [[b1 b2] b3]. unfold lex.
  destruct (Z.compare_spec a1 b1), (Z.compare_spec a2 b2),
    (Z.compare_spec a3 b3); split; intros; try discriminate; try lia;
    reflexivity.
Qed.

Lemma lex_Eq a b : lex a b = Eq <-> a = b.
Proof.
  destruct a as [[a1 a2] a3], b as [[b1 b2] b3]. unfold lex.
  destruct (Z.compare_spec a1 b1), (Z.compare_spec a2 b2),
    (Z.compare_spec a3 b3); split; intros H2; try discriminate;
    try reflexivity; try (inversion H2; lia); subst; reflexivity.
Qed.

Lemma lex_Gt a b : lex a b = Gt <-> lex b a = Lt.
Proof.
  destruct a as [[a1 a2] a3], b as [[b1 b2] b3]. unfold lex.
  rewrite (Z.compare_antisym a1 b1), (Z.compare_antisym a2 b2),
    (Z.compare_antisym a3 b3).
  destruct (a1 ?= b1), (a2 ?= b2), (a3 ?= b3); simpl; split;
    intros; try discriminate; reflexivity.
Qed.

Lemma ltb_spec (x y : float) :
  ltb x y = true <->
  is_nan x = false /\ is_nan y = false /\ lex (rank x) (rank y) = Lt.
Proof.
  unfold ltb, SFltb. rewrite SFcompare_rank.
  destruct (is_nan x), (is_nan y); simpl;
    try (split; [discriminate | intros (? & ? & ?); discriminate]).
  destruct (lex (rank x) (rank y)); split; intros H;
    try discriminate; try (destruct H as (_ & _ & H); discriminate); auto.
Qed.

Lemma eqb_spec (x y : float) :
  eqb x y = true <->
  is_nan x = false /\ is_nan y = false /\ rank x = rank y.
Proof.
  unfold eqb, SFeqb. rewrite SFcompare_rank.
  destruct (is_nan x), (is_nan y); simpl;
    try (split; [discriminate | intros (? & ? & ?); discriminate]).
  rewrite <- lex_Eq.
  destruct (lex (rank x) (rank y)); split; intros H;
    try discriminate; try (destruct H as (_ & _ & H); discriminate); auto.
Qed.

Lemma ltb_irrefl x : ltb x x = false.
Proof.
  destruct (ltb x x) eqn:E; [|reflexivity].
  apply ltb_spec in E. destruct E as (_ & _ & E).
  apply lex_Lt in E. destruct (rank x) as [[a b] c]. lia.
Qed.

Lemma ltb_trans x y z : ltb x y = true -> ltb y z = true -> ltb x z = true.
Proof.
  rewrite !ltb_spec, !lex_Lt.
  destruct (rank x) as [[a1 a2] a3], (rank y) as [[b1 b2] b3],
    (rank z) as [[c1 c2] c3].
  intros (? & ? & ?) (? & ? & ?). repeat split; auto. lia.
Qed.

Lemma ltb_asym x y : ltb x y = true -> ltb y x = false.
Proof.
  intros H. destruct (ltb y x) eqn:E; [|reflexivity].
  pose proof (ltb_trans _ _ _ H E) as F. rewrite ltb_irrefl in F.
  discriminate.
Qed.

Lemma ltb_total x y :
  is_nan x = false -> is_nan y = false ->
  ltb x y = false -> ltb y x = false -> eqb x y = true.
Proof.
  intros Hx Hy H1 H2. apply eqb_spec. repeat split; auto.
  apply lex_Eq. destruct (lex (rank x) (rank y)) eqn:E; [reflexivity| |].
  - assert (ltb x y = true) by (apply ltb_spec; auto). congruence.
  - apply lex_Gt in E.
    assert (ltb y x = true) by (apply ltb_spec; auto). congruence.
Qed.

Lemma eqb_sym x y : eqb x y = eqb y x.
Proof.
  destruct (eqb x y) eqn:E, (eqb y x) eqn:F; try reflexivity.
  - apply eqb_spec in E. destruct E as (? & ? & E).
    assert (eqb y x = true) by (apply eqb_spec; auto). congruence.
  - apply eqb_spec in F. destruct F as (? & ? & F).
    assert (eqb x y = true) by (apply eqb_spec; auto). congruence.
Qed.

Lemma eqb_ltb_l x y z : eqb x y = true -> ltb x z = ltb y z.
Proof.
  intros H. apply eqb_spec in H. destruct H as (Hx & Hy & H).
  destruct (ltb x z) eqn:E, (ltb y z) eqn:F; try reflexivity.
  - apply ltb_spec in E. destruct E as (_ & ? & E). rewrite H in E.
    assert (ltb y z = true) by (apply ltb_spec; auto). congruence.
  - apply ltb_spec in F. destruct F as (_ & ? & F). rewrite <- H in F.
    assert (ltb x z = true) by (apply ltb_spec; auto). congruence.
Qed.

Lemma eqb_ltb_r x y z : eqb x y = true -> ltb z x = ltb z y.
Proof.
  intros H. apply eqb_spec in H. destruct H as (Hx & Hy & H).
  destruct (ltb z x) eqn:E, (ltb z y) eqn:F; try reflexivity.
  - apply ltb_spec in E. destruct E as (? & _ & E). rewrite H in E.
    assert (ltb z y = true) by (apply ltb_spec; auto). congruence.
  - apply ltb_spec in F. destruct F as (? & _ & F). rewrite <- H in F.
    assert (ltb z x = true) by (apply ltb_spec; auto). congruence.
Qed.

Lemma eqb_trans x y z : eqb x y = true -> eqb y z = true -> eqb x z = true.
Proof.
  rewrite !eqb_spec. intros (? & ? & ?) (? & ? & ?).
  repeat split; auto. congruence.
Qed.

Lemma ltb_not_eqb x y : ltb x y = true -> eqb x y = false.
Proof.
  intros H. destruct (eqb x y) eqn:E; [|reflexivity].
  rewrite (eqb_ltb_l _ _ _ E), ltb_irrefl in H. discriminate.
Qed.

Lemma ltb_not_nan x y :
  ltb x y = true -> is_nan x = false /\ is_nan y = false.
Proof. intros H. apply ltb_spec in H. tauto. Qed.

Lemma eqb_not_nan x y :
  eqb x y = true -> is_nan x = false /\ is_nan y = false.
Proof. intros H. apply eqb_spec in H. tauto. Qed.

End PyFloatFacts.

(** ** Ordered sides, [sorted], [scan] and slices *)

Section Order.
Import PyFloat PyFloatFacts.

Lemma before_flip a b : before bids a b = before asks b a.
Proof. reflexivity. Qed.

Lemma before_trans s a b c :
  before s a b = true -> before s b c = true -> before s a c = true.
Proof.
  destruct s; simpl; unfold gtb; intros H1 H2.
  - exact (ltb_trans _ _ _ H2 H1).
  - exact (ltb_trans _ _ _ H1 H2).
Qed.

Lemma before_not_eqb s a b : before s a b = true -> eqb a b = false.
Proof.
  destruct s; simpl; unfold gtb; intros H.
  - rewrite eqb_sym. now apply ltb_not_eqb.
  - now apply ltb_not_eqb.
Qed.

Lemma before_eqb_l s a a' b :
  eqb a a' = true -> before s a b = before s a' b.
Proof.
  destruct s; simpl; unfold gtb; intros H.
  - now apply eqb_ltb_r.
  - now apply eqb_ltb_l.
Qed.

Lemma before_eqb_r s a b b' :
  eqb b b' = true -> before s a b = before s a b'.
Proof.
  destruct s; simpl; unfold gtb; intros H.
  - now apply eqb_ltb_l.
  - now apply eqb_ltb_r.
Qed.

Lemma precedes_trans s x y z :
  precedes s x y -> precedes s y z -> precedes s x z.
Proof. unfold precedes. apply before_trans. Qed.

Lemma strictly_ordered_Sorted s l :
  strictly_ordered s l = true <-> Sorted (precedes s) l.
Proof.
  induction l as [|x l IH].
  - split; [constructor | reflexivity].
  - destruct l as [|y l].
    + split; [repeat constructor | reflexivity].
    + change (strictly_ordered s (x :: y :: l))
        with (before s (fst x) (fst y) && strictly_ordered s (y :: l)).
      rewrite andb_true_iff, IH. split.
      * intros [H1 H2]. constructor; [assumption | now constructor].
      * intros H. inversion H as [|? ? H1 H2]; subst.
        inversion H2; subst. now split.
Qed.

Lemma strictly_ordered_strong s l :
  strictly_ordered s l = true <-> StronglySorted (precedes s) l.
Proof.
  rewrite strictly_ordered_Sorted. split.
  - apply Sorted_StronglySorted. intros x y z. apply precedes_trans.
  - apply StronglySorted_Sorted.
Qed.

Lemma strong_app s l1 l2 :
  StronglySorted (precedes s) (l1 ++ l2) <->
  StronglySorted (precedes s) l1 /\ StronglySorted (precedes s) l2
  /\ (forall x y, In x l1 -> In y l2 -> precedes s x y).
Proof.
  induction l1 as [|a l1 IH]; simpl.
  - split.
    + intros H. repeat split; [constructor | assumption | contradiction].
    + tauto.
  - split.
    + intros H. apply StronglySorted_inv in H. destruct H as [H1 H2].
      apply IH in H1. destruct H1 as (S1 & S2 & H12).
      rewrite Forall_app in H2. destruct H2 as [F1 F2].
      repeat split; [now constructor | assumption |].
      intros x y [<-|Hx] Hy.
      * rewrite Forall_forall in F2. now apply F2.
      * now apply H12.
    + intros (S1 & S2 & H12). apply StronglySorted_inv in S1.
      destruct S1 as [S1 F1]. constructor.
      * apply IH. repeat split; auto.
      * apply Forall_app. split; [assumption|].
        apply Forall_forall. intros y Hy. apply H12; auto.
Qed.

Lemma strong_rev l :
  StronglySorted (precedes bids) l <-> StronglySorted (precedes asks) (rev l).
Proof.
  induction l as [|a l IH]; simpl.
  - split; constructor.
  - rewrite strong_app. split.
    + intros H. apply StronglySorted_inv in H. destruct H as [H1 H2].
      repeat split.
      * now apply IH.
      * repeat constructor.
      * intros x y Hx [<-|[]]. apply in_rev in Hx.
        rewrite Forall_forall in H2. exact (H2 _ Hx).
    + intros (H1 & _ & H2). constructor.
      * now apply IH.
      * apply Forall_forall. intros x Hx.
        apply (H2 x a); [now apply in_rev in Hx | now left].
Qed.

(** [sorted] leaves an ordered side as it is. *)
Lemma insert_first x l :
  Forall (precedes asks x) l -> insert x l = x :: l.
Proof.
  destruct l as [|y l]; [reflexivity|].
  intros H. apply Forall_inv in H. unfold precedes in H. simpl in *.
  now rewrite (ltb_asym _ _ H).
Qed.

Lemma sort_ordered l : StronglySorted (precedes asks) l -> sort l = l.
Proof.
  induction 1 as [|x l S IH F]; [reflexivity|].
  simpl. rewrite IH. now apply insert_first.
Qed.

Lemma sorted_ordered s l :
  strictly_ordered s l = true -> sorted l (side_eqb s bids) = l.
Proof.
  rewrite strictly_ordered_strong. destruct s; simpl; intros H.
  - apply strong_rev in H. rewrite (sort_ordered _ H). apply rev_involutive.
  - now apply sort_ordered.
Qed.

(** [sorted] permutes. *)
Lemma insert_perm x l : Permutation (insert x l) (x :: l).
Proof.
  induction l as [|y l IH]; simpl; [reflexivity|].
  destruct (ltb (fst y) (fst x)); [|reflexivity].
  rewrite IH. apply perm_swap.
Qed.

Lemma sort_perm l : Permutation (sort l) l.
Proof.
  induction l as [|x l IH]; simpl; [reflexivity|].
  rewrite insert_perm. now constructor.
Qed.

Lemma sorted_perm l r : Permutation (sorted l r) l.
Proof.
  destruct r; simpl; [|apply sort_perm].
  rewrite <- Permutation_rev, sort_perm. symmetry. apply Permutation_rev.
Qed.

(** Inserting a new price, a number, among ordered numbers. *)
Lemma insert_strong x l :
  StronglySorted (precedes asks) l ->
  is_nan (fst x) = false ->
  Forall (fun y => is_nan (fst y) = false /\ eqb (fst y) (fst x) = false) l ->
  StronglySorted (precedes asks) (insert x l).
Proof.
  intros S Hx. induction S as [|y l S IH F]; intros N.
  - repeat constructor.
  - apply Forall_cons_iff in N. destruct N as [[Ny Ey] N]. simpl.
    destruct (ltb (fst y) (fst x)) eqn:E.
    + constructor; [now apply IH|].
      apply (Permutation_Forall (Permutation_sym (insert_perm x l))).
      constructor; assumption.
    + assert (L : ltb (fst x) (fst y) = true).
      { destruct (ltb (fst x) (fst y)) eqn:L; [reflexivity|].
        rewrite (ltb_total _ _ Ny Hx E L) in Ey. discriminate. }
      constructor; [now constructor|].
      constructor; [exact L|].
      apply Forall_forall. intros z Hz. rewrite Forall_forall in F.
      exact (precedes_trans asks x y z L (F z Hz)).
Qed.

Lemma prices_numbers_Forall l :
  prices_numbers l = true <-> Forall (fun y => is_nan (fst y) = false) l.
Proof.
  unfold prices_numbers. rewrite forallb_forall, Forall_forall.
  split; intros H y Hy; specialize (H y Hy).
  - now apply negb_true_iff.
  - now apply negb_true_iff.
Qed.

Lemma present_false p l :
  present p l = false <-> Forall (fun y => eqb (fst y) p = false) l.
Proof.
  unfold present. induction l as [|y l IH]; simpl.
  - split; [constructor | reflexivity].
  - rewrite orb_false_iff, IH, Forall_cons_iff. reflexivity.
Qed.

Lemma sort_append l x :
  StronglySorted (precedes asks) l ->
  prices_numbers l = true ->
  is_nan (fst x) = false ->
  present (fst x) l = false ->
  StronglySorted (precedes asks) (sort (l ++ [x])).
Proof.
  intros S. induction S as [|a l S IH F]; intros N Hx P.
  - repeat constructor.
  - simpl in N. apply andb_true_iff in N. destruct N as [Na N].
    apply negb_true_iff in Na.
    simpl in P. apply orb_false_iff in P. destruct P as [Pa P].
    simpl. apply insert_strong; [now apply IH | assumption |].
    apply (Permutation_Forall (Permutation_sym (sort_perm (l ++ [x])))).
    apply Forall_app. split.
    + apply prices_numbers_Forall in N.
      rewrite Forall_forall in *. intros y Hy. split; [now apply N|].
      rewrite eqb_sym. apply ltb_not_eqb. exact (F y Hy).
    + constructor; [|constructor]. split; [assumption|].
      now rewrite eqb_sym.
Qed.

Lemma prices_numbers_perm l l' :
  Permutation l l' -> prices_numbers l = prices_numbers l'.
Proof.
  intros H. destruct (prices_numbers l') eqn:E.
  - apply prices_numbers_Forall. apply prices_numbers_Forall in E.
    exact (Permutation_Forall (Permutation_sym H) E).
  - destruct (prices_numbers l) eqn:E'; [|reflexivity].
    apply prices_numbers_Forall in E'.
    apply (Permutation_Forall H), prices_numbers_Forall in E'. congruence.
Qed.

Lemma present_false_perm p l l' :
  Permutation l l' -> present p l = false -> present p l' = false.
Proof.
  rewrite !present_false. intros H. now apply Permutation_Forall.
Qed.

Lemma sorted_append s l x :
  strictly_ordered s l = true ->
  prices_numbers l = true ->
  is_nan (fst x) = false ->
  present (fst x) l = false ->
  strictly_ordered s (sorted (l ++ [x]) (side_eqb s bids)) = true.
Proof.
  rewrite !strictly_ordered_strong. destruct s; simpl; intros S N Hx P.
  - apply strong_rev. rewrite rev_involutive, rev_app_distr. simpl.
    apply strong_rev in S. rewrite (sort_ordered _ S).
    apply insert_strong; [assumption..|].
    rewrite (prices_numbers_perm _ _ (Permutation_rev l)) in N.
    apply (present_false_perm _ _ _ (Permutation_rev l)) in P.
    apply prices_numbers_Forall in N. apply present_false in P.
    rewrite Forall_forall in *. intros y Hy. split; auto.
  - now apply sort_append.
Qed.

(** An ordered side has no two levels of one price. *)
Lemma strictly_ordered_no_duplicate s l :
  strictly_ordered s l = true -> no_duplicate_price l = true.
Proof.
  rewrite strictly_ordered_strong.
  induction 1 as [|x l S IH F]; [reflexivity|].
  simpl. rewrite IH, andb_true_r. apply forallb_forall. intros y Hy.
  rewrite Forall_forall in F. apply negb_true_iff.
  exact (before_not_eqb s _ _ (F y Hy)).
Qed.

End Order.

(** ** One update of a side *)

Section UpdateSide.
Import PyFloat PyFloatFacts.

Lemma scan_None l p q : scan l p q = None <-> present p l = false.
Proof.
  unfold present. induction l as [|[p0 q0] l IH]; simpl.
  - tauto.
  - destruct (eqb p0 p); simpl.
    + destruct (eqb q zero); split; discriminate.
    + rewrite <- IH. destruct (scan l p q); split; congruence.
Qed.

Lemma scan_Some l p q l' :
  scan l p q = Some l' ->
  exists l1 x l2,
    l = l1 ++ x :: l2 /\ eqb (fst x) p = true /\ present p l1 = false /\
    l' = l1 ++ (if eqb q zero then l2 else (p, q) :: l2).
Proof.
  revert l'. induction l as [|[p0 q0] l IH]; simpl; intros l' H.
  - discriminate.
  - destruct (eqb p0 p) eqn:E.
    + exists [], (p0, q0), l. repeat split; auto.
      simpl. destruct (eqb q zero); congruence.
    + destruct (scan l p q) as [r|]; [|discriminate].
      injection H as <-.
      destruct (IH r eq_refl) as (l1 & x & l2 & -> & Hx & P & ->).
      exists ((p0, q0) :: l1), x, l2. repeat split; auto.
      simpl. now rewrite E.
Qed.

Lemma present_scan l p q :
  present p l = true -> exists l', scan l p q = Some l'.
Proof.
  intros H. destruct (scan l p q) as [l'|] eqn:E; [now exists l'|].
  apply scan_None in E. congruence.
Qed.

Lemma scan_ordered s l p q l' :
  scan l p q = Some l' ->
  strictly_ordered s l = true -> strictly_ordered s l' = true.
Proof.
  intros H. apply scan_Some in H.
  destruct H as (l1 & x & l2 & -> & Hx & _ & ->).
  rewrite !strictly_ordered_strong, !strong_app.
  intros (S1 & S2 & C). apply StronglySorted_inv in S2.
  destruct S2 as [S2 F]. destruct (eqb q zero).
  - repeat split; auto. intros y z Hy Hz. apply C; simpl; auto.
  - repeat split; auto.
    + constructor; [assumption|].
      rewrite Forall_forall in *. intros z Hz. unfold precedes. simpl.
      rewrite <- (before_eqb_l s _ _ _ Hx). now apply F.
    + intros y z Hy [<-|Hz].
      * unfold precedes. simpl. rewrite <- (before_eqb_r s _ _ _ Hx).
        apply C; simpl; auto.
      * apply C; simpl; auto.
Qed.

Lemma scan_numbers l p q l' :
  scan l p q = Some l' ->
  prices_numbers l = true -> prices_numbers l' = true.
Proof.
  intros H. apply scan_Some in H.
  destruct H as (l1 & x & l2 & -> & Hx & _ & ->).
  unfold prices_numbers. rewrite !forallb_app. simpl.
  rewrite !andb_true_iff. intros (H1 & H2 & H3).
  destruct (eqb q zero); simpl; [now split|].
  apply eqb_not_nan in Hx. destruct Hx as [_ ->]. now repeat split.
Qed.

Lemma scan_length l p q l' :
  scan l p q = Some l' -> (List.length l' <= List.length l)%nat.
Proof.
  intros H. apply scan_Some in H.
  destruct H as (l1 & x & l2 & -> & _ & _ & ->).
  rewrite !length_app. destruct (eqb q zero); simpl; lia.
Qed.

(** With a price that is present and a quantity equal to zero, [scan]
    removes the level of that price from an ordered side. *)
Lemma scan_zero s l p q :
  strictly_ordered s l = true ->
  present p l = true -> eqb q zero = true ->
  exists l1 x l2,
    l = l1 ++ x :: l2 /\ eqb (fst x) p = true /\
    present p l1 = false /\ present p l2 = false /\
    scan l p q = Some (l1 ++ l2).
Proof.
  intros S P Q. destruct (present_scan l p q P) as [l' H].
  destruct (scan_Some _ _ _ _ H) as (l1 & x & l2 & -> & Hx & P1 & ->).
  rewrite Q in H. exists l1, x, l2. repeat split; auto.
  apply strictly_ordered_strong, strong_app in S.
  destruct S as (_ & S & _). apply StronglySorted_inv in S.
  destruct S as [_ F]. apply present_false.
  rewrite Forall_forall in *. intros y Hy.
  destruct (eqb (fst y) p) eqn:E; [|reflexivity].
  rewrite eqb_sym in E. pose proof (eqb_trans _ _ _ Hx E) as E'.
  rewrite (before_not_eqb s _ _ (F y Hy)) in E'. discriminate.
Qed.

Lemma present_app p l1 l2 :
  present p (l1 ++ l2) = present p l1 || present p l2.
Proof. apply existsb_app. Qed.

Lemma without_absent p l : present p l = false -> without p l = l.
Proof.
  unfold present, without. induction l as [|y l IH]; simpl; [reflexivity|].
  intros H. apply orb_false_iff in H. destruct H as [-> H]. simpl.
  now rewrite IH.
Qed.

Lemma without_app p l1 l2 :
  without p (l1 ++ l2) = without p l1 ++ without p l2.
Proof. apply filter_app. Qed.

(** Slices. *)
Lemma slice_to_firstn {A} n (l : list A) :
  exists k, slice_to n l = firstn k l.
Proof. unfold slice_to. destruct (n <? 0); eauto. Qed.

Lemma slice_to_all {A} n (l : list A) :
  Z.of_nat (List.length l) <= n -> slice_to n l = l.
Proof.
  intros H. unfold slice_to. destruct (Z.ltb_spec n 0); [lia|].
  apply firstn_all2. lia.
Qed.

Lemma slice_to_length {A} n (l : list A) :
  0 <= n -> Z.of_nat (List.length (slice_to n l)) <= n.
Proof.
  intros H. unfold slice_to. destruct (Z.ltb_spec n 0); [lia|].
  rewrite length_firstn. lia.
Qed.

Lemma firstn_ordered s k l :
  strictly_ordered s l = true -> strictly_ordered s (firstn k l) = true.
Proof.
  rewrite !strictly_ordered_strong. intros H.
  rewrite <- (firstn_skipn k l) in H. now apply strong_app in H.
Qed.

Lemma firstn_forallb {A} (f : A -> bool) k l :
  forallb f l = true -> forallb f (firstn k l) = true.
Proof.
  intros H. rewrite <- (firstn_skipn k l), forallb_app in H.
  now apply andb_true_iff in H.
Qed.

(** What [update_side] leaves alone. *)
Lemma update_side_depth s p q self :
  depth (update_side s p q self) = depth self.
Proof. destruct s; reflexivity. Qed.

Lemma update_side_lock s p q self :
  lock (update_side s p q self) = lock self.
Proof. destruct s; reflexivity. Qed.

Lemma update_side_other s s' p q self :
  s <> s' -> order_book (update_side s p q self) s' = order_book self s'.
Proof. destruct s, s'; intros H; try reflexivity; contradiction. Qed.

Lemma update_side_set_lock s p q b self :
  update_side s p q (set_lock b self) = set_lock b (update_side s p q self).
Proof. destruct s; reflexivity. Qed.

Lemma order_book_set s v self : order_book (set_order_book s v self) s = v.
Proof. destruct s; reflexivity. Qed.

(** An update keeps a tidy side tidy. *)
Lemma update_side_tidy s p q self :
  0 <= depth self -> is_nan p = false ->
  tidy_side (depth self) s (order_book self s) = true ->
  tidy_side (depth self) s (order_book (update_side s p q self) s) = true.
Proof.
  intros Hn Hp. unfold tidy_side, update_side.
  rewrite order_book_set, !andb_true_iff. intros [[S N] _].
  remember (order_book self s) as l eqn:Hl. clear Hl.
  assert (H : strictly_ordered s
                (sorted match scan l p q with
                        | Some l0 => l0
                        | None => if gtb q zero then l ++ [(p, q)] else l
                        end (side_eqb s bids)) = true
              /\ prices_numbers
                   match scan l p q with
                   | Some l0 => l0
                   | None => if gtb q zero then l ++ [(p, q)] else l
                   end = true).
  { destruct (scan l p q) as [l'|] eqn:E.
    - pose proof (scan_ordered s _ _ _ _ E S) as S'.
      rewrite (sorted_ordered _ _ S'). split; [assumption|].
      exact (scan_numbers _ _ _ _ E N).
    - apply scan_None in E. destruct (gtb q zero).
      + split; [now apply sorted_append|].
        unfold prices_numbers in *. rewrite forallb_app. simpl.
        rewrite Hp. simpl. rewrite andb_true_r. exact N.
      + rewrite (sorted_ordered _ _ S). now split. }
  destruct H as [S' N'].
  destruct (slice_to_firstn (depth self)
              (sorted match scan l p q with
                      | Some l0 => l0
                      | None => if gtb q zero then l ++ [(p, q)] else l
                      end (side_eqb s bids))) as [k Hk].
  repeat split.
  - rewrite Hk. now apply firstn_ordered.
  - rewrite Hk. apply firstn_forallb.
    fold (prices_numbers
            (sorted match scan l p q with
                    | Some l0 => l0
                    | None => if gtb q zero then l ++ [(p, q)] else l
                    end (side_eqb s bids))).
    now rewrite (prices_numbers_perm _ _ (sorted_perm _ _)).
  - unfold within_depth. apply Z.leb_le. now apply slice_to_length.
Qed.

Lemma quantities_positive_perm l l' :
  Permutation l l' -> quantities_positive l = true ->
  quantities_positive l' = true.
Proof.
  unfold quantities_positive. rewrite !forallb_forall. intros H F x Hx.
  apply F. exact (Permutation_in _ (Permutation_sym H) Hx).
Qed.

Lemma leb_zero_gtb q :
  leb zero q = true -> eqb q zero = false -> gtb q zero = true.
Proof.
  unfold leb, eqb, gtb, SFleb, SFeqb, SFltb, zero.
  destruct q as [s|s| |s m e]; try destruct s; simpl; congruence.
Qed.

(** An update with a quantity that is zero or more keeps the quantities
    positive. *)
Lemma update_side_positive s p q self :
  leb zero q = true ->
  quantities_positive (order_book self s) = true ->
  quantities_positive (order_book (update_side s p q self) s) = true.
Proof.
  intros Hq Q. unfold update_side. rewrite order_book_set.
  remember (order_book self s) as l eqn:Hl. clear Hl.
  destruct (slice_to_firstn (depth self)
              (sorted match scan l p q with
                      | Some l0 => l0
                      | None => if gtb q zero then l ++ [(p, q)] else l
                      end (side_eqb s bids))) as [k ->].
  apply firstn_forallb. fold (quantities_positive
    (sorted match scan l p q with
            | Some l0 => l0
            | None => if gtb q zero then l ++ [(p, q)] else l
            end (side_eqb s bids))).
  apply (quantities_positive_perm _ _ (Permutation_sym (sorted_perm _ _))).
  destruct (scan l p q) as [l'|] eqn:E.
  - apply scan_Some in E. destruct E as (l1 & x & l2 & E & _ & _ & ->).
    unfold quantities_positive in *. rewrite E in Q.
    rewrite forallb_app in *. simpl in Q.
    apply andb_true_iff in Q. destruct Q as [Q1 Q2].
    apply andb_true_iff in Q2. destruct Q2 as [_ Q2].
    apply andb_true_iff. split; [exact Q1|].
    destruct (eqb q zero) eqn:Z; [exact Q2|]. simpl.
    apply andb_true_iff. split; [exact (leb_zero_gtb q Hq Z) | exact Q2].
  - destruct (gtb q zero) eqn:G; [|assumption].
    unfold quantities_positive in *. rewrite forallb_app.
    apply andb_true_iff. split; [exact Q|]. simpl. now rewrite G.
Qed.

End UpdateSide.

(** ** Sequential runs of the methods *)

Section Run.

Lemma run_bind {A B} (m : prog A) (k : A -> prog B) w :
  run (x <- m ;; k x) w =
  match run m w with
  | Return a w' => run (k a) w'
  | Raise e w' => Raise e w'
  | Blocked w' => Blocked w'
  end.
Proof.
  revert w. induction m as [a|e|X a h IH]; intros w; simpl; try reflexivity.
  destruct (perform a w) as [[x w']|]; [apply IH | reflexivity].
Qed.

Lemma run_release_after {A} (body : prog A) w :
  run (release_after body) w =
  match run body w with
  | Return a w' => Return a (unlocked w')
  | Raise e w' => Raise e (unlocked w')
  | Blocked w' => Blocked w'
  end.
Proof.
  revert w. induction body as [a|e|X a h IH]; intros w; simpl;
    try reflexivity.
  destruct (perform a w) as [[x w']|]; [apply IH | reflexivity].
Qed.

Lemma run_with_lock {A} (body : prog A) w :
  run (with_lock body) w =
  if lock (self w) then Blocked w
  else match run body (locked w) with
       | Return a w' => Return a (unlocked w')
       | Raise e w' => Raise e (unlocked w')
       | Blocked w' => Blocked w'
       end.
Proof.
  unfold with_lock. simpl. destruct (lock (self w)); [reflexivity|].
  apply run_release_after.
Qed.

Lemma run_update_side s p q w :
  run (_update_side s p q) w
  = Return tt (mkWorld (update_side s p q (self w)) (records w)).
Proof.
  unfold _update_side, update_side. simpl.
  destruct (scan (order_book (self w) s) p q) as [l|]; simpl.
  - destruct s; reflexivity.
  - destruct (PyFloat.gtb q PyFloat.zero); simpl; destruct s; reflexivity.
Qed.

(** The book fields of a world, whatever the lock. *)
Lemma set_lock_order_book b self s :
  order_book (set_lock b self) s = order_book self s.
Proof. destruct s; reflexivity. Qed.

Lemma set_lock_same self : set_lock (lock self) self = self.
Proof. destruct self; reflexivity. Qed.

Lemma set_lock_twice b b' self : set_lock b (set_lock b' self) = set_lock b self.
Proof. reflexivity. Qed.

Lemma unlocked_locked w : lock (self w) = false -> unlocked (locked w) = w.
Proof.
  destruct w as [[sy d t bs aks l] r]. simpl. intros ->. reflexivity.
Qed.

(** A loop of updates returns or raises; it keeps what every update keeps. *)
Lemma run_update_each (I : BybitOrderBook -> Prop) (ok : string * string -> bool)
  s l :
  (forall pq p q self,
      ok pq = true -> float (fst pq) = inr p -> float (snd pq) = inr q ->
      I self -> I (update_side s p q self)) ->
  forallb ok l = true ->
  forall w, I (self w) ->
  finished (run (update_each s l) w) = true
  /\ I (self (world_of (run (update_each s l) w))).
Proof.
  intros Hupd. induction l as [|[pt qt] l IH]; intros Hok w Hw.
  - simpl. auto.
  - simpl in Hok. apply andb_true_iff in Hok. destruct Hok as [Hpq Hok].
    cbn [update_each].
    destruct (float pt) as [e|p] eqn:Ep; [simpl; auto|].
    destruct (float qt) as [e|q] eqn:Eq; [simpl; auto|].
    cbn [lift bind]. rewrite run_bind, run_update_side.
    apply IH; [assumption|]. simpl.
    now apply (Hupd (pt, qt)).
Qed.

End Run.

(** ** Sequential runs of [handle_message] *)

Section HandleMessage.

Variable m : message.
Variable w : world.

Lemma run_handle_empty :
  truthy (get_data m) = false ->
  run (handle_message m) w
  = Return tt (mkWorld (self w) (records w ++ [Received m; EmptyData])).
Proof.
  intros H. unfold handle_message. rewrite H. simpl.
  now rewrite <- app_assoc.
Qed.

Lemma run_handle_blocked :
  truthy (get_data m) = true -> lock (self w) = true ->
  run (handle_message m) w = Blocked (logged (Received m) w).
Proof.
  intros H L. unfold handle_message. rewrite H. simpl. now rewrite L.
Qed.

Hypothesis Hdata : truthy (get_data m) = true.
Hypothesis Hlock : lock (self w) = false.

Lemma run_handle_snapshot :
  type_is m "snapshot" = true ->
  run (handle_message m) w =
  match parse_levels (get_pairs (get_data m) bids) with
  | inl e => Raise e (logged (Received m) w)
  | inr b =>
      match parse_levels (get_pairs (get_data m) asks) with
      | inl e =>
          Raise e (mkWorld (set_order_book bids b (self w))
                           (records w ++ [Received m]))
      | inr a =>
          Return tt
            (mkWorld (set_order_book asks a (set_order_book bids b (self w)))
                     (records w ++ [Received m;
                                    Updated (List.length b) (List.length a)]))
      end
  end.
Proof.
  intros T. unfold handle_message. rewrite Hdata, T. simpl. rewrite Hlock.
  destruct w as [[sy d t bs aks l] r]. simpl in *. subst l.
  destruct (parse_levels (get_pairs (get_data m) bids)) as [e|b]; simpl;
    [reflexivity|].
  destruct (parse_levels (get_pairs (get_data m) asks)) as [e|a]; simpl;
    [reflexivity|].
  now rewrite <- app_assoc.
Qed.

(** A delta message: the call takes the lock, and [_update_order_book]
    blocks on it. *)
Lemma run_handle_delta :
  type_is m "snapshot" = false -> type_is m "delta" = true ->
  run (handle_message m) w = Blocked (locked (logged (Received m) w)).
Proof.
  intros T T'. unfold handle_message. rewrite Hdata, T, T'. simpl.
  now rewrite Hlock.
Qed.

Lemma run_handle_unknown :
  type_is m "snapshot" = false -> type_is m "delta" = false ->
  run (handle_message m) w
  = Return tt
      (mkWorld (self w)
         (records w ++ [Received m; UnknownType (message_type m);
                        Updated (List.length (order_book (self w) bids))
                                (List.length (order_book (self w) asks))])).
Proof.
  intros T T'. unfold handle_message. rewrite Hdata, T, T'. simpl.
  rewrite Hlock. destruct w as [[sy d t bs aks l] r]. simpl in *. subst l.
  now rewrite <- !app_assoc.
Qed.

End HandleMessage.

Lemma delta_is_not_snapshot m :
  type_is m "delta" = true -> type_is m "snapshot" = false.
Proof.
  unfold type_is. destruct (message_type m) as [t|]; [|discriminate].
  intros H. apply String.eqb_eq in H. now subst.
Qed.

(** With the lock free, a call finishes unless its message is a delta with
    a key in its data. *)
Lemma handle_message_finished m w :
  lock (self w) = false ->
  finished (run (handle_message m) w)
  = negb (truthy (get_data m) && type_is m "delta").
Proof.
  intros L. destruct (truthy (get_data m)) eqn:D.
  2:{ now rewrite (run_handle_empty m w D). }
  destruct (type_is m "delta") eqn:T'.
  - now rewrite (run_handle_delta m w D L (delta_is_not_snapshot m T') T').
  - destruct (type_is m "snapshot") eqn:T.
    + rewrite (run_handle_snapshot m w D L T).
      destruct (parse_levels (get_pairs (get_data m) bids));
        [|destruct (parse_levels (get_pairs (get_data m) asks))]; reflexivity.
    + now rewrite (run_handle_unknown m w D L T T').
Qed.

(** ** Properties kept by every call

    A property of the sides that the levels of every allowed snapshot have,
    and that every allowed update keeps, holds between calls. *)

Section Invariant.

Variable n : Z.
Variable P : side -> list level -> Prop.
Variable snap : side -> pairs -> bool.
Variable okp : string * string -> bool.
Variable allowed : call -> bool.

Hypothesis Hsnap :
  forall s l v, snap s l = true -> parse_levels l = inr v -> P s v.
Hypothesis Hupd :
  forall s pq p q self,
    depth self = n -> okp pq = true ->
    float (fst pq) = inr p -> float (snd pq) = inr q ->
    P s (order_book self s) -> P s (order_book (update_side s p q self) s).
Hypothesis Hhandle :
  forall m, allowed (Handle m) = true -> type_is m "snapshot" = true ->
            forall s, snap s (get_pairs (get_data m) s) = true.
Hypothesis Hupdate :
  forall b a, allowed (UpdateOrderBook b a) = true ->
              forallb okp b = true /\ forallb okp a = true.

Lemma kept_set_lock b self : kept n P self -> kept n P (set_lock b self).
Proof.
  intros [D H]. split; [exact D|]. intros s.
  rewrite set_lock_order_book. apply H.
Qed.

Lemma kept_set_order_book s v self :
  P s v -> kept n P self -> kept n P (set_order_book s v self).
Proof.
  intros Hv [D H]. split; [destruct s; exact D|].
  intros s'. destruct s, s'; simpl; try exact Hv; apply (H bids) || apply (H asks).
Qed.

Lemma kept_update_side s pq p q self :
  okp pq = true -> float (fst pq) = inr p -> float (snd pq) = inr q ->
  kept n P self -> kept n P (update_side s p q self).
Proof.
  intros Hok Hp Hq [D H]. split; [now rewrite update_side_depth|].
  intros s'. destruct (side_eqb s s') eqn:E.
  - assert (s = s') as <- by (destruct s, s'; simpl in E; congruence).
    now apply (Hupd s pq).
  - rewrite update_side_other; [apply H|].
    intros <-. destruct s; discriminate.
Qed.

Lemma kept_update_order_book b a w :
  forallb okp b = true -> forallb okp a = true ->
  lock (self w) = false -> kept n P (self w) ->
  finished (run (_update_order_book b a) w) = true
  /\ kept n P (self (world_of (run (_update_order_book b a) w)))
  /\ lock (self (world_of (run (_update_order_book b a) w))) = false.
Proof.
  intros Hb Ha L K. unfold _update_order_book.
  rewrite run_with_lock, L, run_bind.
  assert (K' : kept n P (self (locked w))) by now apply kept_set_lock.
  destruct (run_update_each (kept n P) okp bids b
              (fun pq p q self => kept_update_side bids pq p q self)
              Hb (locked w) K') as [F1 K1].
  destruct (run (update_each bids b) (locked w)) as [[] w1|e w1|w1];
    simpl in F1, K1; try discriminate.
  - destruct (run_update_each (kept n P) okp asks a
                (fun pq p q self => kept_update_side asks pq p q self)
                Ha w1 K1) as [F2 K2].
    destruct (run (update_each asks a) w1) as [[] w2|e w2|w2];
      simpl in F2, K2; try discriminate; simpl;
      (split; [reflexivity | split; [now apply kept_set_lock | reflexivity]]).
  - simpl. split; [reflexivity | split; [now apply kept_set_lock | reflexivity]].
Qed.

Lemma kept_handle_message m w :
  allowed (Handle m) = true ->
  lock (self w) = false -> kept n P (self w) ->
  finished (run (handle_message m) w) = true ->
  kept n P (self (world_of (run (handle_message m) w)))
  /\ lock (self (world_of (run (handle_message m) w))) = false.
Proof.
  intros A L K. destruct (truthy (get_data m)) eqn:D.
  2:{ rewrite run_handle_empty by assumption. simpl. auto. }
  destruct (type_is m "snapshot") eqn:T.
  - rewrite (run_handle_snapshot m w D L T). intros _.
    pose proof (Hhandle m A T) as S.
    destruct (parse_levels (get_pairs (get_data m) bids)) as [e|b] eqn:Eb;
      [simpl; auto|].
    pose proof (Hsnap bids _ _ (S bids) Eb) as Pb.
    destruct (parse_levels (get_pairs (get_data m) asks)) as [e|a] eqn:Ea;
      cbn [world_of self].
    + split; [now apply (kept_set_order_book bids) | destruct w; exact L].
    + pose proof (Hsnap asks _ _ (S asks) Ea) as Pa.
      split; [|destruct w; exact L].
      apply (kept_set_order_book asks); [assumption|].
      now apply (kept_set_order_book bids).
  - destruct (type_is m "delta") eqn:T'.
    + rewrite (run_handle_delta m w D L T T'). discriminate.
    + rewrite (run_handle_unknown m w D L T T'). simpl. auto.
Qed.

Lemma kept_reachable w0 w :
  lock (self w0) = false -> kept n P (self w0) ->
  reachable allowed w0 w ->
  kept n P (self w) /\ lock (self w) = false.
Proof.
  intros L0 K0. induction 1 as [|c w R [K L] A F]; [auto|].
  destruct c as [m|b a]; simpl in *.
  - now apply kept_handle_message.
  - destruct (Hupdate b a A) as [Hb Ha].
    destruct (kept_update_order_book b a w Hb Ha L K) as (_ & K' & L').
    auto.
Qed.

End Invariant.

(** ** Properties of one update of a side *)

Lemma eqb_zero_not_gtb q :
  PyFloat.eqb q PyFloat.zero = true -> PyFloat.gtb q PyFloat.zero = false.
Proof.
  intros H. unfold PyFloat.gtb. fold (PyFloat.ltb PyFloat.zero q).
  destruct (PyFloat.ltb PyFloat.zero q) eqn:E; [|reflexivity].
  apply PyFloatFacts.ltb_not_eqb in E.
  rewrite PyFloatFacts.eqb_sym in E. congruence.
Qed.

Lemma set_order_book_same s self :
  set_order_book s (order_book self s) self = self.
Proof. destruct self, s; reflexivity. Qed.

Lemma side_invariant_parts self s :
  side_invariant self s = true ->
  strictly_ordered s (order_book self s) = true
  /\ Z.of_nat (List.length (order_book self s)) <= depth self.
Proof.
  unfold side_invariant, within_depth. rewrite !andb_true_iff.
  intros [[H1 _] H2]. split; [assumption | now apply Z.leb_le].
Qed.

(** C3: on a side that is strictly ordered, without duplicate price and
    within the depth, an update with a quantity equal to zero removes the
    one level of that price when the price is present, and leaves the whole
    state as it is when the price is absent. *)
Theorem zero_quantity_deletion
  (w : world) (s : side) (price quantity : PyFloat.float) :
  side_invariant (self w) s = true ->
  PyFloat.eqb quantity PyFloat.zero = true ->
  (present price (order_book (self w) s) = true ->
   exists l1 x l2,
     order_book (self w) s = l1 ++ x :: l2 /\
     PyFloat.eqb (fst x) price = true /\
     present price (l1 ++ l2) = false /\
     run (_update_side s price quantity) w
     = Return tt (mkWorld (set_order_book s (l1 ++ l2) (self w)) (records w)))
  /\ (present price (order_book (self w) s) = false ->
      run (_update_side s price quantity) w = Return tt w).
Proof.
  intros I Q. apply side_invariant_parts in I. destruct I as [S D].
  rewrite run_update_side. unfold update_side. split; intros P.
  - destruct (scan_zero s _ _ _ S P Q) as (l1 & x & l2 & E & Hx & P1 & P2 & H).
    exists l1, x, l2. rewrite H. repeat split; try assumption.
    + rewrite present_app, P1, P2. reflexivity.
    + pose proof (scan_ordered s _ _ _ _ H S) as S'.
      rewrite (sorted_ordered _ _ S'), slice_to_all; [reflexivity|].
      apply scan_length in H. lia.
  - pose proof P as N. apply scan_None with (q := quantity) in N.
    rewrite N, (eqb_zero_not_gtb _ Q), (sorted_ordered _ _ S).
    rewrite slice_to_all by assumption.
    rewrite set_order_book_same. now destruct w.
Qed.

Lemma zero_quantity_deletion_witness :
  (present (num "99") (order_book (self book50_live) bids) = true ->
   exists l1 x l2,
     order_book (self book50_live) bids = l1 ++ x :: l2 /\
     PyFloat.eqb (fst x) (num "99") = true /\
     present (num "99") (l1 ++ l2) = false /\
     run (_update_side bids (num "99") (num "0")) book50_live
     = Return tt (mkWorld (set_order_book bids (l1 ++ l2) (self book50_live))
                          (records book50_live)))
  /\ (present (num "99") (order_book (self book50_live) bids) = false ->
      run (_update_side bids (num "99") (num "0")) book50_live
      = Return tt book50_live).
Proof.
  apply (zero_quantity_deletion book50_live bids (num "99") (num "0"));
    vm_compute; reflexivity.
Defined.

Lemma slice_to_single {A} d (x : A) : 1 <= d -> slice_to d [x] = [x].
Proof. intros D. apply slice_to_all. simpl. lia. Qed.

Lemma update_side_first s p q self :
  order_book self s = [] ->
  PyFloat.gtb q PyFloat.zero = true -> 1 <= depth self ->
  order_book (update_side s p q self) s = [(p, q)].
Proof.
  intros E G D. unfold update_side. rewrite order_book_set, E. simpl.
  rewrite G. destruct s; simpl; now apply slice_to_single.
Qed.

Lemma update_side_replace s p0 q0 p q self :
  order_book self s = [(p0, q0)] ->
  PyFloat.eqb p0 p = true -> PyFloat.eqb q PyFloat.zero = false ->
  1 <= depth self ->
  order_book (update_side s p q self) s = [(p, q)].
Proof.
  intros E P Q D. unfold update_side. rewrite order_book_set, E. simpl.
  rewrite P, Q. destruct s; simpl; now apply slice_to_single.
Qed.

(** C4: on an empty bid side of a book of depth 1 or more, the update
    (100.0, 2.0) followed by the update (100.0, 3.0) leaves exactly one bid,
    (100.0, 3.0), and the asks as they were. *)
Theorem upsert_replace (w : world) :
  order_book (self w) bids = [] ->
  1 <= depth (self w) ->
  exists w',
    run (_update_side bids (num "100.0") (num "2.0") ;;;
         _update_side bids (num "100.0") (num "3.0")) w
    = Return tt w'
    /\ order_book (self w') bids = [(num "100.0", num "3.0")]
    /\ order_book (self w') asks = order_book (self w) asks.
Proof.
  intros E D. rewrite run_bind, !run_update_side.
  eexists. split; [reflexivity|]. cbn [self]. split.
  - apply (update_side_replace bids (num "100.0") (num "2.0")).
    + now apply update_side_first.
    + reflexivity.
    + reflexivity.
    + now rewrite update_side_depth.
  - rewrite !update_side_other by discriminate. reflexivity.
Qed.

Lemma upsert_replace_witness :
  exists w',
    run (_update_side bids (num "100.0") (num "2.0") ;;;
         _update_side bids (num "100.0") (num "3.0")) book50
    = Return tt w'
    /\ order_book (self w') bids = [(num "100.0", num "3.0")]
    /\ order_book (self w') asks = order_book (self book50) asks.
Proof. apply (upsert_replace book50); [reflexivity | simpl; lia]. Defined.

(** ** Properties of the states between calls *)

(** A snapshot is stored as it comes: one that carries the price 100 twice
    leaves a bid side with a duplicate price. *)
Lemma sort_invariant_counterexample :
  reachable any_call book50
    (world_of (run (call_prog (Handle duplicate_snapshot)) book50))
  /\ side_invariant
       (self (world_of (run (call_prog (Handle duplicate_snapshot)) book50)))
       bids = false.
Proof.
  split; [|vm_compute; reflexivity].
  apply reachable_call; [apply reachable_start | reflexivity |].
  vm_compute. reflexivity.
Qed.

Lemma tidy_side_invariant self s :
  tidy_side (depth self) s (order_book self s) = true ->
  side_invariant self s = true.
Proof.
  unfold tidy_side, side_invariant. rewrite !andb_true_iff.
  intros [[S _] D]. repeat split; try assumption.
  exact (strictly_ordered_no_duplicate s _ S).
Qed.

(** What the delta path keeps: from a fresh book of depth [n], zero or
    more, when every snapshot comes with its sides strictly ordered, with
    prices that are numbers, and at most [n] long, the delta updates whose
    prices are numbers leave each side strictly ordered by price, without
    duplicate price, and at most [n] long. *)
Theorem sort_and_depth_invariant
  (symbol : string) (n : Z) (testnet : bool) (w : world) :
  0 <= n ->
  reachable (tidy n) (__init__ symbol n testnet) w ->
  side_invariant (self w) bids = true /\ side_invariant (self w) asks = true.
Proof.
  intros Hn R.
  assert (K : kept n (fun s l => tidy_side n s l = true) (self w)
              /\ lock (self w) = false).
  { apply (kept_reachable n _ (tidy_snapshot_side n) price_number (tidy n))
      with (w0 := __init__ symbol n testnet); try assumption.
    - intros s l v H E. unfold tidy_snapshot_side in H. now rewrite E in H.
    - intros s [pt qt] p q self0 D Hp Ep _ T. simpl in Ep.
      unfold price_number in Hp. simpl in Hp. rewrite Ep in Hp.
      apply negb_true_iff in Hp. subst n. now apply update_side_tidy.
    - intros m A T s. simpl in A. rewrite T in A.
      apply andb_true_iff in A. destruct s; tauto.
    - intros b a A. simpl in A. now apply andb_true_iff in A.
    - reflexivity.
    - split; [reflexivity|]. intros s. unfold tidy_side, within_depth.
      destruct s; simpl; apply Z.leb_le; exact Hn. }
  destruct K as [[D K] _]. split; apply tidy_side_invariant; rewrite D; apply K.
Qed.

Lemma sort_and_depth_invariant_witness :
  side_invariant (self book50_updated) bids = true
  /\ side_invariant (self book50_updated) asks = true.
Proof.
  apply (sort_and_depth_invariant "BTCUSDT" 50 true book50_updated).
  - lia.
  - unfold book50_updated.
    apply reachable_call; [|vm_compute; reflexivity..].
    unfold book50_live.
    apply (reachable_call _ _ (Handle _)); [|vm_compute; reflexivity..].
    apply reachable_start.
Defined.

(** C1: the snapshot path breaks the invariant that the delta path
    enforces.  In a book of depth 2, the snapshot with the bids 100, 99 and
    98 is a reachable state with three bids; in a book of depth 50, the
    snapshot with the bids 98, 100, 99 is a reachable state whose bids are
    in that order.  Neither side is sorted or cut to the depth, as
    [_update_side] does after every update. *)
Theorem snapshot_not_normalised :
  reachable any_call book2
    (world_of (run (call_prog (Handle three_bids_snapshot)) book2))
  /\ order_book
       (self (world_of (run (call_prog (Handle three_bids_snapshot)) book2)))
       bids
     = [(num "100", num "1"); (num "99", num "1"); (num "98", num "1")]
  /\ side_invariant
       (self (world_of (run (call_prog (Handle three_bids_snapshot)) book2)))
       bids = false
  /\ reachable any_call book50
       (world_of (run (call_prog (Handle ascending_bids_snapshot)) book50))
  /\ order_book
       (self (world_of (run (call_prog (Handle ascending_bids_snapshot))
                            book50)))
       bids
     = [(num "98", num "1"); (num "100", num "1"); (num "99", num "1")]
  /\ side_invariant
       (self (world_of (run (call_prog (Handle ascending_bids_snapshot))
                            book50)))
       bids = false.
Proof.
  repeat split; try (vm_compute; reflexivity);
    (apply reachable_call; [apply reachable_start | reflexivity |];
     vm_compute; reflexivity).
Qed.

(** C2, as stated, fails: a snapshot is stored as it comes, so a bid of
    quantity zero in a snapshot is stored. *)
Lemma positive_quantity_counterexample :
  reachable any_call book50
    (world_of (run (call_prog (Handle zero_snapshot)) book50))
  /\ order_book
       (self (world_of (run (call_prog (Handle zero_snapshot)) book50))) bids
     = [(num "100", num "0")]
  /\ quantities_positive
       (order_book
          (self (world_of (run (call_prog (Handle zero_snapshot)) book50)))
          bids) = false.
Proof.
  split; [|split; vm_compute; reflexivity].
  apply reachable_call; [apply reachable_start | reflexivity |].
  vm_compute. reflexivity.
Qed.

(** C2, amended: from a fresh book, through snapshots whose quantities are
    all more than zero and through delta updates whose quantities are zero
    or more, every level of either side has a quantity more than zero. *)
Theorem positive_quantity_invariant
  (symbol : string) (n : Z) (testnet : bool) (w : world) :
  reachable sound_quantities (__init__ symbol n testnet) w ->
  quantities_positive (order_book (self w) bids) = true
  /\ quantities_positive (order_book (self w) asks) = true.
Proof.
  intros R.
  assert (K : kept n (fun _ l => quantities_positive l = true) (self w)
              /\ lock (self w) = false).
  { apply (kept_reachable n _ (fun _ => positive_snapshot_side) quantity_sound
             sound_quantities)
      with (w0 := __init__ symbol n testnet); try assumption.
    - intros s l v H E. unfold positive_snapshot_side in H. now rewrite E in H.
    - intros s [pt qt] p q self0 _ Hq _ Eq Q. simpl in Eq.
      unfold quantity_sound in Hq. simpl in Hq. rewrite Eq in Hq.
      now apply update_side_positive.
    - intros m A T s. simpl in A. rewrite T in A.
      apply andb_true_iff in A. destruct s; tauto.
    - intros b a A. simpl in A. now apply andb_true_iff in A.
    - reflexivity.
    - split; [reflexivity|]. intros s. destruct s; reflexivity. }
  destruct K as [[_ K] _]. split; apply K.
Qed.

Lemma positive_quantity_invariant_witness :
  quantities_positive (order_book (self book50_updated) bids) = true
  /\ quantities_positive (order_book (self book50_updated) asks) = true.
Proof.
  apply (positive_quantity_invariant "BTCUSDT" 50 true book50_updated).
  unfold book50_updated. apply reachable_call; [|vm_compute; reflexivity..].
  unfold book50_live.
  apply (reachable_call _ _ (Handle _)); [|vm_compute; reflexivity..].
  apply reachable_start.
Defined.

(** ** Properties of one message *)

Lemma parse_levels_malformed l :
  match parse_levels l with
  | inl _ => existsb malformed l = true
  | inr _ => existsb malformed l = false
  end.
Proof.
  induction l as [|[pt qt] l IH]; [reflexivity|].
  cbn [parse_levels existsb]. unfold malformed at 1 3. cbn [fst snd].
  destruct (float pt) as [e|p]; [reflexivity|].
  destruct (float qt) as [e|q]; [reflexivity|].
  destruct (parse_levels l); simpl; exact IH.
Qed.

Lemma logged_lock r w : lock (self (logged r w)) = lock (self w).
Proof. reflexivity. Qed.

Lemma lock_set_order_book s v self :
  lock (set_order_book s v self) = lock self.
Proof. destruct s; reflexivity. Qed.

(** C5: applying a snapshot message a second time, from the state the
    first application left, leaves the book as the first application left
    it, and ends the same way. *)
Theorem snapshot_idempotent (m : message) (w : world) :
  type_is m "snapshot" = true ->
  self (world_of (run (handle_message m)
                      (world_of (run (handle_message m) w))))
  = self (world_of (run (handle_message m) w))
  /\ finished (run (handle_message m) (world_of (run (handle_message m) w)))
     = finished (run (handle_message m) w).
Proof.
  intros T. destruct (truthy (get_data m)) eqn:D.
  2:{ rewrite !run_handle_empty by assumption. split; reflexivity. }
  destruct (lock (self w)) eqn:L.
  { rewrite (run_handle_blocked m w D L). cbn [world_of].
    rewrite (run_handle_blocked m _ D); [split; reflexivity | exact L]. }
  rewrite (run_handle_snapshot m w D L T).
  destruct (parse_levels (get_pairs (get_data m) bids)) as [e|b] eqn:Eb.
  { cbn [world_of].
    rewrite (run_handle_snapshot m _ D); [|exact L|exact T].
    rewrite Eb. split; reflexivity. }
  destruct (parse_levels (get_pairs (get_data m) asks)) as [e|a] eqn:Ea;
    cbn [world_of];
    (rewrite (run_handle_snapshot m _ D);
     [|cbn [self]; rewrite ?lock_set_order_book; exact L|exact T]);
    rewrite Eb, Ea; split; reflexivity.
Qed.

Lemma snapshot_idempotent_witness :
  self (world_of (run (handle_message three_bids_snapshot)
                      (world_of (run (handle_message three_bids_snapshot)
                                     book50_live))))
  = self (world_of (run (handle_message three_bids_snapshot) book50_live))
  /\ finished (run (handle_message three_bids_snapshot)
                   (world_of (run (handle_message three_bids_snapshot)
                                  book50_live)))
     = finished (run (handle_message three_bids_snapshot) book50_live).
Proof.
  apply (snapshot_idempotent three_bids_snapshot book50_live). reflexivity.
Defined.

(** C6: in a book of depth 2, the snapshot with the bids 100, 99 and 98
    keeps the three of them; the delta message that follows takes the lock
    and blocks on it in [_update_order_book], changes nothing, and the read
    that follows blocks too.  Called on its own after the snapshot,
    [_update_order_book] with (97, 1) leaves the bids 100 and 99, and then
    with (101, 1) the bids 101 and 100. *)
Theorem depth_eviction_scenario :
  let w1 := world_of (run (handle_message three_bids_snapshot) book2) in
  let w2 := world_of (run (handle_message delta_97) w1) in
  finished (run (handle_message three_bids_snapshot) book2) = true
  /\ order_book (self w1) bids
     = [(num "100", num "1"); (num "99", num "1"); (num "98", num "1")]
  /\ run (handle_message delta_97) w1 = Blocked w2
  /\ lock (self w2) = true
  /\ order_book (self w2) bids = order_book (self w1) bids
  /\ run get_order_book w2 = Blocked w2
  /\ (let w3 := world_of (run (_update_order_book [("97", "1")] []) w1) in
      order_book (self w3) bids = [(num "100", num "1"); (num "99", num "1")]
      /\ order_book
           (self (world_of (run (_update_order_book [("101", "1")] []) w3)))
           bids
         = [(num "101", num "1"); (num "100", num "1")]).
Proof. vm_compute. repeat split; reflexivity. Qed.

(** C7, as stated, fails: a snapshot whose data has keys and no level on
    either side empties the book. *)
Lemma empty_message_counterexample :
  get_pairs (get_data empty_sides_snapshot) bids = []
  /\ get_pairs (get_data empty_sides_snapshot) asks = []
  /\ order_book (self book50_live) bids
     = [(num "100", num "1"); (num "99", num "1")]
  /\ order_book
       (self (world_of (run (handle_message empty_sides_snapshot) book50_live)))
       bids = [].
Proof. vm_compute. repeat split; reflexivity. Qed.

(** C7, amended: a message whose data is missing or has no key at all
    changes nothing in the book; the call logs the warning and returns. *)
Theorem empty_data_no_mutation (m : message) (w : world) :
  truthy (get_data m) = false ->
  exists w',
    run (handle_message m) w = Return tt w'
    /\ self w' = self w
    /\ records w' = records w ++ [Received m; EmptyData]
    /\ record_level EmptyData = WARNING.
Proof.
  intros D. rewrite (run_handle_empty m w D). eexists.
  repeat split; reflexivity.
Qed.

Lemma empty_data_no_mutation_witness :
  exists w',
    run (handle_message (mkMessage (Some "snapshot") None)) book50_live
    = Return tt w'
    /\ self w' = self book50_live
    /\ records w'
       = records book50_live
         ++ [Received (mkMessage (Some "snapshot") None); EmptyData]
    /\ record_level EmptyData = WARNING.
Proof.
  apply (empty_data_no_mutation (mkMessage (Some "snapshot") None) book50_live).
  reflexivity.
Defined.

(** C8, as stated, fails: a snapshot with a valid bid and a malformed ask
    raises after the bids of the book have been replaced. *)
Lemma parse_error_counterexample :
  existsb malformed (get_pairs (get_data bad_ask_snapshot) bids
                     ++ get_pairs (get_data bad_ask_snapshot) asks) = true
  /\ order_book (self book50_live) bids
     = [(num "100", num "1"); (num "99", num "1")]
  /\ run (handle_message bad_ask_snapshot) book50_live
     = Raise (ValueError "x")
             (world_of (run (handle_message bad_ask_snapshot) book50_live))
  /\ order_book
       (self (world_of (run (handle_message bad_ask_snapshot) book50_live)))
       bids = [(num "100", num "1")].
Proof. vm_compute. repeat split; reflexivity. Qed.

Lemma malformed_truthy d :
  existsb malformed (get_pairs d bids ++ get_pairs d asks) = true ->
  truthy d = true.
Proof.
  unfold get_pairs, truthy.
  destruct (data_b d), (data_a d), (data_other d); simpl;
    try reflexivity; discriminate.
Qed.

(** C8, amended: a snapshot message with a malformed token, applied with
    the lock free, raises the [ValueError] and leaves the lock free and the
    asks as they were; the bids too when a bid token is malformed, and
    otherwise the bids are already those of the message.  A later call of
    [handle_message] on the state it leaves is not blocked by the failed
    one: it finishes unless its own message is a delta with a key in its
    data. *)
Theorem snapshot_parse_error (m : message) (w : world) :
  lock (self w) = false ->
  type_is m "snapshot" = true ->
  existsb malformed (get_pairs (get_data m) bids
                     ++ get_pairs (get_data m) asks) = true ->
  exists e w',
    run (handle_message m) w = Raise e w'
    /\ lock (self w') = false
    /\ order_book (self w') asks = order_book (self w) asks
    /\ (existsb malformed (get_pairs (get_data m) bids) = true ->
        self w' = self w)
    /\ (existsb malformed (get_pairs (get_data m) bids) = false ->
        exists b,
          parse_levels (get_pairs (get_data m) bids) = inr b
          /\ self w' = set_order_book bids b (self w))
    /\ (forall m',
          finished (run (handle_message m') w')
          = negb (truthy (get_data m') && type_is m' "delta")).
Proof.
  intros L T B. pose proof (malformed_truthy _ B) as D.
  rewrite (run_handle_snapshot m w D L T).
  rewrite existsb_app in B.
  pose proof (parse_levels_malformed (get_pairs (get_data m) bids)) as Hb.
  pose proof (parse_levels_malformed (get_pairs (get_data m) asks)) as Ha.
  destruct (parse_levels (get_pairs (get_data m) bids)) as [e|b].
  - exists e. eexists. split; [reflexivity|].
    repeat split; try assumption; try reflexivity.
    + intros F. congruence.
    + intros m'. now apply handle_message_finished.
  - rewrite Hb in B. simpl in B.
    destruct (parse_levels (get_pairs (get_data m) asks)) as [e|a];
      [|congruence].
    exists e. eexists. split; [reflexivity|]. cbn [self].
    repeat split; try assumption; try reflexivity.
    + intros F. congruence.
    + intros _. now exists b.
    + intros m'. apply handle_message_finished. cbn [self].
      now rewrite lock_set_order_book.
Qed.

Lemma snapshot_parse_error_witness :
  exists e w',
    run (handle_message bad_ask_snapshot) book50_live = Raise e w'
    /\ lock (self w') = false
    /\ order_book (self w') asks = order_book (self book50_live) asks
    /\ (existsb malformed (get_pairs (get_data bad_ask_snapshot) bids) = true ->
        self w' = self book50_live)
    /\ (existsb malformed (get_pairs (get_data bad_ask_snapshot) bids) = false ->
        exists b,
          parse_levels (get_pairs (get_data bad_ask_snapshot) bids) = inr b
          /\ self w' = set_order_book bids b (self book50_live))
    /\ (forall m',
          finished (run (handle_message m') w')
          = negb (truthy (get_data m') && type_is m' "delta")).
Proof.
  apply (snapshot_parse_error bad_ask_snapshot book50_live);
    vm_compute; reflexivity.
Defined.

(** C10, as stated, fails: a snapshot without the key ["a"] whose bid is
    malformed raises before any side is replaced, and the asks stay. *)
Lemma one_sided_snapshot_counterexample :
  data_a (get_data bad_bids_only_snapshot) = None
  /\ truthy (get_data bad_bids_only_snapshot) = true
  /\ order_book
       (self (world_of (run (handle_message bad_bids_only_snapshot)
                            book50_live)))
       asks = [(num "101", num "1")].
Proof. vm_compute. repeat split; reflexivity. Qed.

(** C10, amended: a snapshot message with keys in its data, applied with
    the lock free, empties the bids when the key ["b"] is missing; when
    the key ["a"] is missing it empties the asks if no bid token is
    malformed, and otherwise raises and leaves the book as it was. *)
Theorem one_sided_snapshot (m : message) (w : world) :
  lock (self w) = false ->
  type_is m "snapshot" = true ->
  truthy (get_data m) = true ->
  (data_b (get_data m) = None ->
   order_book (self (world_of (run (handle_message m) w))) bids = [])
  /\ (data_a (get_data m) = None ->
      existsb malformed (get_pairs (get_data m) bids) = false ->
      finished (run (handle_message m) w) = true
      /\ order_book (self (world_of (run (handle_message m) w))) asks = [])
  /\ (data_a (get_data m) = None ->
      existsb malformed (get_pairs (get_data m) bids) = true ->
      exists e,
        run (handle_message m) w = Raise e (logged (Received m) w)).
Proof.
  intros L T D. rewrite (run_handle_snapshot m w D L T).
  pose proof (parse_levels_malformed (get_pairs (get_data m) bids)) as Hb.
  repeat split.
  - intros N. unfold get_pairs at 1. rewrite N. cbn [parse_levels].
    destruct (parse_levels (get_pairs (get_data m) asks)); reflexivity.
  - destruct (parse_levels (get_pairs (get_data m) bids)); [congruence|].
    unfold get_pairs. rewrite H. reflexivity.
  - destruct (parse_levels (get_pairs (get_data m) bids)); [congruence|].
    unfold get_pairs at 1. rewrite H. reflexivity.
  - intros N B. destruct (parse_levels (get_pairs (get_data m) bids)) as [e|b];
      [now exists e | congruence].
Qed.

Lemma one_sided_snapshot_witness :
  (data_b (get_data (snapshot_message None (Some [("101", "2")]))) = None ->
   order_book
     (self (world_of
              (run (handle_message
                      (snapshot_message None (Some [("101", "2")])))
                   book50_live))) bids = [])
  /\ (data_a (get_data (snapshot_message None (Some [("101", "2")]))) = None ->
      existsb malformed
        (get_pairs (get_data (snapshot_message None (Some [("101", "2")])))
                   bids) = false ->
      finished (run (handle_message
                       (snapshot_message None (Some [("101", "2")])))
                    book50_live) = true
      /\ order_book
           (self (world_of
                    (run (handle_message
                            (snapshot_message None (Some [("101", "2")])))
                         book50_live))) asks = [])
  /\ (data_a (get_data (snapshot_message None (Some [("101", "2")]))) = None ->
      existsb malformed
        (get_pairs (get_data (snapshot_message None (Some [("101", "2")])))
                   bids) = true ->
      exists e,
        run (handle_message (snapshot_message None (Some [("101", "2")])))
            book50_live
        = Raise e
            (logged (Received (snapshot_message None (Some [("101", "2")])))
                    book50_live)).
Proof.
  apply (one_sided_snapshot (snapshot_message None (Some [("101", "2")]))
           book50_live); reflexivity.
Defined.

(** ** Interleaved runs: the lock discipline *)

Section Discipline.

Lemma sections_bind {A B} (m : prog A) (k : A -> prog B) ph
  (Q Q' : phase -> Prop) :
  sections ph Q m -> (forall h, Q h -> Q' h) ->
  (forall h a, Q h -> sections h Q' (k a)) ->
  sections ph Q' (x <- m ;; k x).
Proof.
  intros Hm HQ Hk. revert ph Hm.
  induction m as [a|e|X a g IH]; intros ph Hm; simpl in *.
  - now apply Hk.
  - now apply HQ.
  - destruct a; simpl in *.
    + destruct ph; [now apply IH | exact I | contradiction].
    + destruct Hm as [-> Hm]. split; [reflexivity | now apply IH].
    + intros l. now apply IH.
    + destruct Hm as [-> Hm]. split; [reflexivity | now apply IH].
    + intros d. now apply IH.
    + now apply IH.
Qed.

Lemma sections_release_after {A} (body : prog A) ph :
  sections ph (fun h => h = Inside) body ->
  sections ph (fun h => h = After) (release_after body).
Proof.
  revert ph. induction body as [a|e|X a g IH]; intros ph Hb; simpl in *.
  - now split.
  - now split.
  - destruct a; simpl in *.
    + destruct ph; [now apply IH | exact I | contradiction].
    + destruct Hb as [-> Hb]. split; [reflexivity | now apply IH].
    + intros l. now apply IH.
    + destruct Hb as [-> Hb]. split; [reflexivity | now apply IH].
    + intros d. now apply IH.
    + now apply IH.
Qed.

Lemma sections_with_lock {A} (body : prog A) :
  sections Inside (fun h => h = Inside) body ->
  sections Before (fun h => h = After) (with_lock body).
Proof. intros H. simpl. now apply sections_release_after. Qed.

(** [handle_message] has one critical section: both sides of a snapshot are
    assigned in it, and nothing is assigned after it. *)
Lemma one_section_handle_message m : one_section Before (handle_message m).
Proof.
  unfold one_section, handle_message.
  apply (sections_bind _ _ _ (fun h => h = Before)); [reflexivity | |].
  { now intros h ->. }
  intros h _ ->.
  destruct (truthy (get_data m)); simpl negb; cbv iota; [|reflexivity].
  apply (sections_bind _ _ _ (fun h => h = After)).
  - apply sections_with_lock.
    destruct (type_is m "snapshot").
    + destruct (parse_levels (get_pairs (get_data m) bids)) as [e|b]; simpl;
        [reflexivity|].
      split; [reflexivity|].
      destruct (parse_levels (get_pairs (get_data m) asks)) as [e|a]; simpl;
        [reflexivity|].
      split; reflexivity.
    + destruct (type_is m "delta"); simpl; [exact I | reflexivity].
  - now intros h ->.
  - intros h _ ->. simpl. auto.
Qed.

(** The records logged so far have no effect on what a program does to the
    object. *)
Lemma outcome_records {A} (p : prog A) book r1 r2 :
  outcome (run p (mkWorld book r1)) = outcome (run p (mkWorld book r2)).
Proof.
  revert book r1 r2. induction p as [a|e|X a g IH]; intros book r1 r2;
    [reflexivity | reflexivity |].
  destruct a; simpl.
  - destruct (lock book); [reflexivity | apply IH].
  - apply IH.
  - apply IH.
  - apply IH.
  - apply IH.
  - apply IH.
Qed.

(** After its critical section a call ends and leaves the object as it
    is. *)
Lemma after_quiet {A} (p : prog A) final w :
  sections After final p -> outcome (run p w) = Some (self w).
Proof.
  revert w. induction p as [a|e|X a g IH]; intros w Hs;
    [reflexivity | reflexivity |].
  destruct a; simpl in *.
  - contradiction.
  - destruct Hs as [Hs _]. discriminate.
  - now apply IH.
  - destruct Hs as [Hs _]. discriminate.
  - now apply IH.
  - now rewrite IH.
Qed.

Lemma set_lock_congr b book1 book2 :
  set_lock false book1 = set_lock false book2 ->
  set_lock b book1 = set_lock b book2.
Proof.
  intros H.
  change (set_lock b (set_lock false book1) = set_lock b (set_lock false book2)).
  now rewrite H.
Qed.

Lemma set_lock_set_order_book b s v book :
  set_lock b (set_order_book s v book) = set_order_book s v (set_lock b book).
Proof. now destruct s. Qed.

Lemma applied_app l1 l2 book :
  applied (l1 ++ l2) book
  = match applied l1 book with
    | Some book' => applied l2 book'
    | None => None
    end.
Proof.
  revert book. induction l1 as [|m l1 IH]; intros book; simpl;
    [reflexivity|].
  destruct (apply_one m book); [apply IH | reflexivity].
Qed.

Lemma about_to_read_get_order_book : about_to_read get_order_book.
Proof. simpl. intros [b a]. simpl. repeat split. Qed.

End Discipline.

(** ** Interleaved runs: what holds at every configuration *)

Section Interleaving.

Lemma observed_mono past c v : observed past v -> observed (c :: past) v.
Proof. intros (c0 & H & L & V). exists c0. simpl. auto. Qed.

Lemma reader_inv_mono past c w h p :
  reader_inv past w h p -> reader_inv (c :: past) w h p.
Proof.
  unfold reader_inv. destruct h.
  - intros [H O]. split; [assumption | now apply observed_mono].
  - intros [H|(v & H & O)]; [now left | right].
    exists v. split; [assumption | now apply observed_mono].
Qed.

Lemma reader_inv_view past w w' h p :
  view w' = view w -> reader_inv past w h p -> reader_inv past w' h p.
Proof. unfold reader_inv. intros ->. auto. Qed.

Lemma reader_inv_free past w w' p :
  reader_inv past w false p -> reader_inv past w' false p.
Proof. auto. Qed.

Lemma owner_free o : owner_eqb o Free = true -> o = Free.
Proof. destruct o; simpl; congruence. Qed.

Lemma owner_feed o : owner_eqb o Feed = true -> o = Feed.
Proof. destruct o; simpl; congruence. Qed.

Lemma owner_reader o i : owner_eqb o (Reader i) = true -> o = Reader i.
Proof.
  destruct o as [| |j]; simpl; try congruence.
  intros H. apply Nat.eqb_eq in H. now subst.
Qed.

Lemma set_reader_same i p rs : set_reader i p rs i = p.
Proof. unfold set_reader. now rewrite Nat.eqb_refl. Qed.

Lemma set_reader_other i j p rs : j <> i -> set_reader i p rs j = rs j.
Proof.
  intros H. unfold set_reader. apply Nat.eqb_neq in H. now rewrite H.
Qed.

Lemma feed_inv_same w0 msgs ph c w' rs :
  set_lock false (self w') = set_lock false (self (shared c)) ->
  feed_inv w0 msgs ph c ->
  feed_inv w0 msgs ph (mkConfig w' (feed c) (inbox c) rs).
Proof.
  intros Hw (Hs & done & Hm & Hc & Hb). split; [exact Hs|].
  exists done. cbn [shared feed inbox]. split; [exact Hm|]. split.
  - unfold completion in *.
    now rewrite (set_lock_congr _ _ _ Hw).
  - intros P. destruct (Hb P) as (done' & m & Hd & Ha).
    exists done', m. split; [exact Hd|]. now rewrite Hw.
Qed.

Lemma inv_start w msgs :
  lock (self w) = false -> inv w msgs [] (start w msgs).
Proof.
  intros L. exists Free, After. simpl. split; [exact L|].
  split; [reflexivity|]. split.
  - split; [reflexivity|]. exists []. split; [reflexivity|]. split.
    + unfold completion. simpl. rewrite <- L. now rewrite set_lock_same.
    + discriminate.
  - intros i. left. apply about_to_read_get_order_book.
Qed.

Lemma inv_feed_action w0 msgs past c X (a : action X) k x w' :
  inv w0 msgs past c -> feed c = Do a k ->
  perform a (shared c) = Some (x, w') ->
  inv w0 msgs (c :: past) (mkConfig w' (k x) (inbox c) (readers c)).
Proof.
  intros (o & ph & Hl & Hph & (Hs & done & Hm & Hc & Hb) & Hr) E Hp.
  rewrite E in Hs, Hc. unfold one_section in Hs. unfold completion in Hc.
  simpl in Hs, Hc.
  unfold inv, feed_inv, one_section, completion. cbn [shared feed inbox readers].
  destruct a; simpl in Hp, Hs, Hc.
  - destruct (lock (self (shared c))) eqn:L; [discriminate|].
    injection Hp as <- <-.
    assert (o = Free) as -> by (apply owner_free; destruct (owner_eqb o Free);
                                 simpl in Hl; congruence).
    destruct ph; [|discriminate|contradiction].
    exists Feed, Inside. split; [reflexivity|]. split; [reflexivity|]. split.
    + split; [exact Hs|]. exists done. split; [exact Hm|].
      split; [exact Hc | discriminate].
    + intros i. apply (reader_inv_mono past c _ false). exact (Hr i).
  - injection Hp as <- <-. destruct Hs as [-> Hs].
    symmetry in Hph. apply owner_feed in Hph. subst o.
    exists Free, After. split; [reflexivity|]. split; [reflexivity|]. split.
    + split; [exact Hs|]. exists done. split; [exact Hm|].
      split; [exact Hc | discriminate].
    + intros i. apply (reader_inv_mono past c _ false). exact (Hr i).
  - injection Hp as <- <-. rewrite set_lock_order_book in Hc.
    exists o, ph. split; [exact Hl|]. split; [exact Hph|]. split.
    + split; [apply Hs|]. exists done. split; [exact Hm|].
      split; [exact Hc | exact Hb].
    + intros i. apply reader_inv_mono. exact (Hr i).
  - injection Hp as <- <-. destruct Hs as [-> Hs].
    symmetry in Hph. apply owner_feed in Hph. subst o.
    exists Feed, Inside. split; [|split; [reflexivity|split]].
    + cbn [self]. now rewrite lock_set_order_book.
    + split; [exact Hs|]. exists done. split; [exact Hm|].
      split; [|discriminate].
      cbn [self]. rewrite set_lock_set_order_book. exact Hc.
    + intros i. apply (reader_inv_mono past c _ false). exact (Hr i).
  - injection Hp as <- <-.
    exists o, ph. split; [exact Hl|]. split; [exact Hph|]. split.
    + split; [apply Hs|]. exists done. split; [exact Hm|].
      split; [exact Hc | exact Hb].
    + intros i. apply reader_inv_mono. exact (Hr i).
  - injection Hp as <- <-.
    exists o, ph. split; [exact Hl|]. split; [exact Hph|]. split.
    + split; [exact Hs|]. exists done. split; [exact Hm|].
      split; [|exact Hb].
      cbn [self]. rewrite <- Hc. apply outcome_records.
    + intros i. apply reader_inv_mono.
      apply (reader_inv_view past (shared c)); [reflexivity | exact (Hr i)].
Qed.

Lemma inv_feed_next w0 msgs past c m rest :
  inv w0 msgs past c -> idle (feed c) = true -> inbox c = m :: rest ->
  inv w0 msgs (c :: past)
      (mkConfig (shared c) (handle_message m) rest (readers c)).
Proof.
  intros (o & ph & Hl & Hph & (Hs & done & Hm & Hc & Hb) & Hr) Hi E.
  assert (in_section ph = false
          /\ applied done (self w0) = Some (set_lock false (self (shared c))))
    as [P Ha].
  { unfold one_section in Hs. unfold completion in Hc.
    destruct (feed c); simpl in Hs, Hc, Hi; try discriminate;
      (split; [exact Hs|]); rewrite <- Hc, Hs; reflexivity. }
  exists o, Before. cbn [shared feed inbox readers].
  split; [exact Hl|]. split; [now rewrite <- Hph, P|]. split.
  - split; [apply one_section_handle_message|].
    exists (done ++ [m]). split.
    + rewrite Hm, E, <- app_assoc. reflexivity.
    + split.
      * rewrite applied_app, Ha. simpl.
        unfold completion, apply_one. simpl in_section.
        now destruct (outcome _).
      * intros _. exists done, m. now split.
  - intros i. apply reader_inv_mono. exact (Hr i).
Qed.

Lemma side_of_view w s : side_of (view w) s = order_book (self w) s.
Proof. destruct s; reflexivity. Qed.

Lemma reader_eqb_other i j : j <> i -> owner_eqb (Reader i) (Reader j) = false.
Proof. intros H. simpl. apply Nat.eqb_neq. congruence. Qed.

(** The readers other than [i] after a step of reader [i] that leaves the
    view as it is and the lock with the same owner. *)
Lemma others_kept past c o i p w' :
  view w' = view (shared c) ->
  (forall j, reader_inv past (shared c) (owner_eqb o (Reader j)) (readers c j)) ->
  reader_inv (c :: past) w' (owner_eqb o (Reader i)) p ->
  forall j, reader_inv (c :: past) w' (owner_eqb o (Reader j))
                       (set_reader i p (readers c) j).
Proof.
  intros V Hr Hi j. destruct (Nat.eq_dec j i) as [->|N].
  - now rewrite set_reader_same.
  - rewrite set_reader_other by assumption. apply reader_inv_mono.
    apply (reader_inv_view past (shared c)); [exact V | exact (Hr j)].
Qed.

(** The readers other than [i] when reader [i] takes or frees the lock. *)
Lemma others_free past c o o' i p w' :
  (forall j, j <> i -> owner_eqb o (Reader j) = false) ->
  (forall j, j <> i -> owner_eqb o' (Reader j) = false) ->
  (forall j, reader_inv past (shared c) (owner_eqb o (Reader j)) (readers c j)) ->
  reader_inv (c :: past) w' (owner_eqb o' (Reader i)) p ->
  forall j, reader_inv (c :: past) w' (owner_eqb o' (Reader j))
                       (set_reader i p (readers c) j).
Proof.
  intros Ho Ho' Hr Hi j. destruct (Nat.eq_dec j i) as [->|N].
  - now rewrite set_reader_same.
  - rewrite set_reader_other by assumption. rewrite (Ho' j N).
    apply (reader_inv_mono past c _ false).
    pose proof (Hr j) as H. rewrite (Ho j N) in H. exact H.
Qed.

Lemma inv_reader_action w0 msgs past c i X (a : action X) k x w' :
  inv w0 msgs past c -> readers c i = Do a k ->
  perform a (shared c) = Some (x, w') ->
  inv w0 msgs (c :: past)
      (mkConfig w' (feed c) (inbox c) (set_reader i (k x) (readers c))).
Proof.
  intros (o & ph & Hl & Hph & Hf & Hr) E Hp.
  pose proof (Hr i) as Hi. rewrite E in Hi.
  unfold inv. cbn [shared feed readers].
  destruct (owner_eqb o (Reader i)) eqn:O.
  - apply owner_reader in O. subst o. destruct Hi as [Hi Ho].
    destruct a; simpl in Hp, Hi; try contradiction.
    + injection Hp as <- <-. destruct Hi as [_ Hi].
      exists Free, ph. split; [reflexivity|]. split; [exact Hph|].
      split; [now apply feed_inv_same|].
      apply (others_free past c (Reader i) Free i).
      * intros j. apply reader_eqb_other.
      * reflexivity.
      * exact Hr.
      * right. exists (view (shared c)). split; [exact Hi|].
        now apply observed_mono.
    + injection Hp as <- <-. destruct Hi as [_ Hi].
      rewrite side_of_view in Hi.
      exists (Reader i), ph. split; [exact Hl|]. split; [exact Hph|].
      split; [now apply feed_inv_same|].
      apply (others_kept past c (Reader i) i); [reflexivity | exact Hr |].
      simpl. rewrite Nat.eqb_refl.
      split; [exact Hi | now apply observed_mono].
    + injection Hp as <- <-.
      exists (Reader i), ph. split; [exact Hl|]. split; [exact Hph|].
      split; [now apply feed_inv_same|].
      apply (others_kept past c (Reader i) i); [reflexivity | exact Hr |].
      simpl. rewrite Nat.eqb_refl.
      split; [exact Hi | now apply observed_mono].
  - destruct Hi as [Hi|(v & Hi & Ho)].
    + destruct a; simpl in Hp, Hi; try contradiction.
      destruct (lock (self (shared c))) eqn:L; [discriminate|].
      injection Hp as <- <-.
      assert (o = Free) as ->
          by (apply owner_free; destruct (owner_eqb o Free);
              simpl in Hl; congruence).
      exists (Reader i), ph. split; [reflexivity|]. split; [exact Hph|].
      split; [now apply feed_inv_same|].
      apply (others_free past c Free (Reader i) i).
      * reflexivity.
      * intros j. apply reader_eqb_other.
      * exact Hr.
      * simpl. rewrite Nat.eqb_refl. split; [apply Hi|].
        exists c. split; [now left|]. split; [exact L | reflexivity].
    + destruct a; simpl in Hp, Hi; try contradiction;
        try (destruct Hi as [Hi _]; discriminate).
      injection Hp as <- <-.
      exists o, ph. split; [exact Hl|]. split; [exact Hph|].
      split; [now apply feed_inv_same|].
      apply (others_kept past c o i); [reflexivity | exact Hr |].
      rewrite O. right. exists v. split; [exact Hi | now apply observed_mono].
Qed.

Lemma reader_return_observed w0 msgs past c i v :
  inv w0 msgs past c -> readers c i = Ret v ->
  observed past v /\
  inv w0 msgs (c :: past)
      (mkConfig (shared c) (feed c) (inbox c)
                (set_reader i get_order_book (readers c))).
Proof.
  intros (o & ph & Hl & Hph & Hf & Hr) E.
  pose proof (Hr i) as Hi. rewrite E in Hi.
  destruct (owner_eqb o (Reader i)) eqn:O.
  { destruct Hi as [[Hi _] _]. discriminate. }
  destruct Hi as [[]|(v0 & [_ ->] & Ho)]. split; [exact Ho|].
  exists o, ph. cbn [shared feed readers].
  split; [exact Hl|]. split; [exact Hph|].
  split; [now apply feed_inv_same|].
  apply (others_kept past c o i); [reflexivity | exact Hr |].
  rewrite O. left. apply about_to_read_get_order_book.
Qed.

Lemma inv_step w0 msgs past c e c' :
  inv w0 msgs past c -> step c e c' -> inv w0 msgs (c :: past) c'.
Proof.
  intros I S. destruct S as [c X a k x w' E Hp|c m rest Hi E
                             |c i X a k x w' E Hp|c i v E].
  - now apply (inv_feed_action w0 msgs past c X a k x w').
  - now apply inv_feed_next.
  - now apply (inv_reader_action w0 msgs past c i X a k x w').
  - now apply (reader_return_observed w0 msgs past c i v).
Qed.

Lemma inv_execution w msgs past c :
  lock (self w) = false -> execution (start w msgs) past c ->
  inv w msgs past c.
Proof.
  intros L. induction 1 as [|past c e c' _ IH S].
  - now apply inv_start.
  - exact (inv_step w msgs past c e c' IH S).
Qed.

(** A step that changes the view is taken with the lock held, and leaves
    it held. *)
Lemma write_locked w0 msgs past c e c' :
  inv w0 msgs past c -> step c e c' ->
  view (shared c') <> view (shared c) ->
  lock (self (shared c)) = true /\ lock (self (shared c')) = true.
Proof.
  intros (o & ph & Hl & Hph & (Hs & _) & Hr) S.
  destruct S as [c X a k x w' E Hp|c m rest Hi E
                |c i X a k x w' E Hp|c i v E]; cbn [shared]; intros V;
    try (now contradiction V).
  - rewrite E in Hs. unfold one_section in Hs. simpl in Hs.
    destruct a; simpl in Hp, Hs;
      try (destruct (lock (self (shared c))); [discriminate|]);
      injection Hp as <- <-; try (now contradiction V).
    destruct Hs as [-> _]. symmetry in Hph. apply owner_feed in Hph. subst o.
    cbn [self]. rewrite lock_set_order_book. now split.
  - pose proof (Hr i) as Hi. rewrite E in Hi.
    destruct (owner_eqb o (Reader i)).
    + destruct Hi as [Hi _].
      destruct a; simpl in Hp, Hi; try contradiction;
        injection Hp as <- <-; now contradiction V.
    + destruct Hi as [Hi|(v & Hi & _)];
        destruct a; simpl in Hp, Hi; try contradiction;
        try (destruct (lock (self (shared c))); [discriminate|]);
        injection Hp as <- <-; now contradiction V.
Qed.

(** With the lock free, the object is at a point of the apply sequence:
    the call in progress has not entered its critical section, or has left
    it. *)
Lemma inv_boundary w0 msgs past c :
  inv w0 msgs past c -> lock (self (shared c)) = false ->
  at_boundary w0 msgs c.
Proof.
  intros (o & ph & Hl & Hph & (Hs & done & Hm & Hc & Hb) & _) L.
  assert (o = Free) as ->
      by (apply owner_free; destruct (owner_eqb o Free);
          simpl in Hl; congruence).
  assert (set_lock false (self (shared c)) = self (shared c)) as N
      by (rewrite <- L; apply set_lock_same).
  destruct ph; [|discriminate|].
  - destruct (Hb eq_refl) as (done' & m & Hd & Ha).
    exists done', [m]. split; [|split].
    + rewrite Hm, Hd, <- app_assoc. reflexivity.
    + simpl. lia.
    + now rewrite Ha, N.
  - exists done, []. split; [exact Hm|]. split; [simpl; lia|].
    rewrite <- Hc. unfold completion.
    rewrite (after_quiet _ _ _ Hs). simpl. now rewrite N.
Qed.

Lemma execution_boundaries w msgs past c :
  lock (self w) = false -> execution (start w msgs) past c ->
  forall cj, In cj (c :: past) -> lock (self (shared cj)) = false ->
             at_boundary w msgs cj.
Proof.
  intros L E. induction E as [|past c e c' E IH S]; intros cj [<-|Hin] Lj.
  - apply (inv_boundary w msgs []); [now apply inv_start | exact Lj].
  - contradiction.
  - apply (inv_boundary w msgs (c :: past)); [|exact Lj].
    apply (inv_execution w msgs); [exact L|].
    exact (execution_step _ past c e c' E S).
  - now apply IH.
Qed.

End Interleaving.


Lemma reader_step_step i c X (a : action X) k x w' :
  readers c i = Do a k -> perform a (shared c) = Some (x, w') ->
  step c Silent (reader_step i c).
Proof.
  intros E Hp. unfold reader_step. rewrite E, Hp.
  now apply (step_reader_action c i X a k x w').
Qed.


(** ** More on the sequential runs *)

Lemma type_delta_not_snapshot m :
  type_is m "delta" = true -> type_is m "snapshot" = false.
Proof.
  unfold type_is. destruct (message_type m) as [t|]; [|discriminate].
  intros H. apply String.eqb_eq in H. now subst.
Qed.

(** X1: with the lock free, [handle_message] fails to finish exactly on the
    delta messages whose data has a key; it is then stuck with the lock
    held and both sides as they were. *)
Theorem handle_message_blocks (m : message) (w : world) :
  lock (self w) = false ->
  finished (run (handle_message m) w)
  = negb (truthy (get_data m) && type_is m "delta")
  /\ (finished (run (handle_message m) w) = false ->
      lock (self (world_of (run (handle_message m) w))) = true
      /\ view (world_of (run (handle_message m) w)) = view w).
Proof.
  intros L. destruct (truthy (get_data m)) eqn:D.
  2:{ rewrite (run_handle_empty m w D). simpl. split; [reflexivity|].
      discriminate. }
  destruct (type_is m "delta") eqn:T'.
  - rewrite (run_handle_delta m w D L (type_delta_not_snapshot m T') T').
    simpl. split; [reflexivity|]. intros _. split; reflexivity.
  - destruct (type_is m "snapshot") eqn:T.
    + rewrite (run_handle_snapshot m w D L T).
      destruct (parse_levels (get_pairs (get_data m) bids));
        [|destruct (parse_levels (get_pairs (get_data m) asks))];
        simpl; (split; [reflexivity | discriminate]).
    + rewrite (run_handle_unknown m w D L T T'). simpl.
      split; [reflexivity | discriminate].
Qed.

Lemma handle_message_blocks_witness :
  finished (run (handle_message delta_97) book50_live)
  = negb (truthy (get_data delta_97) && type_is delta_97 "delta")
  /\ (finished (run (handle_message delta_97) book50_live) = false ->
      lock (self (world_of (run (handle_message delta_97) book50_live))) = true
      /\ view (world_of (run (handle_message delta_97) book50_live))
         = view book50_live).
Proof. apply (handle_message_blocks delta_97 book50_live). reflexivity. Defined.

(** X2: [get_order_book] blocks when the lock is held; with the lock free
    it returns the two sides as they are stored, logs their lengths, and
    leaves the object as it was. *)
Theorem get_order_book_reads (w : world) :
  run get_order_book w =
  if lock (self w) then Blocked w
  else Return (view w)
         (logged (Returning (List.length (order_book (self w) bids))
                            (List.length (order_book (self w) asks))) w).
Proof.
  unfold get_order_book. rewrite run_with_lock.
  destruct (lock (self w)) eqn:L; [reflexivity|]. simpl.
  destruct w as [[sy d t bs aks l] r]. simpl in *. subst l. reflexivity.
Qed.

(** X3: a message with keys in its data and a type that is neither
    ["snapshot"] nor ["delta"], or no type, changes nothing in the object:
    the call logs a warning with the type and returns. *)
Theorem unknown_type_ignored (m : message) (w : world) :
  truthy (get_data m) = true -> lock (self w) = false ->
  type_is m "snapshot" = false -> type_is m "delta" = false ->
  exists w',
    run (handle_message m) w = Return tt w'
    /\ self w' = self w
    /\ In (UnknownType (message_type m)) (records w')
    /\ record_level (UnknownType (message_type m)) = WARNING.
Proof.
  intros D L T T'. rewrite (run_handle_unknown m w D L T T').
  eexists. split; [reflexivity|]. repeat split.
  cbn [records]. apply in_or_app. right. simpl. auto.
Qed.

Lemma unknown_type_ignored_witness :
  exists w',
    run (handle_message
           (mkMessage (Some "insert") (Some (mkData None None ["s"]))))
        book50_live = Return tt w'
    /\ self w' = self book50_live
    /\ In (UnknownType (Some "insert")) (records w')
    /\ record_level (UnknownType (Some "insert")) = WARNING.
Proof.
  apply (unknown_type_ignored
           (mkMessage (Some "insert") (Some (mkData None None ["s"])))
           book50_live); reflexivity.
Defined.



(** ** [_update_order_book] called on its own *)

Lemma apply_updates_lock s v self :
  lock (apply_updates s v self) = lock self.
Proof.
  revert self. induction v as [|x v IH]; intros self; [reflexivity|].
  simpl. now rewrite IH, update_side_lock.
Qed.

Lemma apply_updates_set_lock s v b self :
  apply_updates s v (set_lock b self) = set_lock b (apply_updates s v self).
Proof.
  revert self. induction v as [|x v IH]; intros self; [reflexivity|].
  simpl. now rewrite update_side_set_lock, IH.
Qed.

Lemma run_update_each_parsed s l v w :
  parse_levels l = inr v ->
  run (update_each s l) w
  = Return tt (mkWorld (apply_updates s v (self w)) (records w)).
Proof.
  revert v w. induction l as [|[pt qt] l IH]; intros v w E.
  - injection E as <-. now destruct w.
  - cbn [parse_levels] in E. cbn [update_each].
    destruct (float pt) as [e|p]; [discriminate|].
    destruct (float qt) as [e|q]; [discriminate|].
    destruct (parse_levels l) as [e|v0]; [discriminate|].
    injection E as <-. cbn [lift bind].
    rewrite run_bind, run_update_side. now rewrite (IH v0).
Qed.

Lemma run_update_each_malformed s l1 p l2 v1 w :
  parse_levels l1 = inr v1 -> malformed p = true ->
  exists e,
    run (update_each s (l1 ++ p :: l2)) w
    = Raise e (mkWorld (apply_updates s v1 (self w)) (records w)).
Proof.
  revert v1 w. induction l1 as [|[pt qt] l1 IH]; intros v1 w E B.
  - injection E as <-. destruct p as [pt qt]. unfold malformed in B.
    cbn [fst snd] in B. cbn [app update_each].
    destruct (float pt) as [e|x]; [exists e; now destruct w|].
    destruct (float qt) as [e|y]; [exists e; now destruct w|discriminate].
  - cbn [parse_levels] in E. cbn [app update_each].
    destruct (float pt) as [e|x]; [discriminate|].
    destruct (float qt) as [e|y]; [discriminate|].
    destruct (parse_levels l1) as [e|v0]; [discriminate|].
    injection E as <-. cbn [lift bind].
    rewrite run_bind, run_update_side.
    destruct (IH v0 (mkWorld (update_side s x y (self w)) (records w))
                 eq_refl B) as [e He].
    exists e. exact He.
Qed.

Lemma unlocked_after w self' :
  lock (self w) = false -> lock self' = false ->
  unlocked (mkWorld (set_lock true self') (records w))
  = mkWorld self' (records w).
Proof.
  intros _ L. unfold unlocked. cbn [self records]. rewrite set_lock_twice.
  rewrite <- L at 1. now rewrite set_lock_same.
Qed.

(** X5: called with the lock free on a book whose prices are numbers, with
    pairs that all parse and whose prices are numbers,
    [_update_order_book] returns after applying the bid updates in their
    order and then the ask updates in theirs; it logs nothing and frees the
    lock. *)
Theorem delta_applies_in_order (b a : pairs) (vb va : list level) (w : world) :
  lock (self w) = false ->
  prices_numbers (order_book (self w) bids) = true ->
  prices_numbers (order_book (self w) asks) = true ->
  parse_levels b = inr vb -> parse_levels a = inr va ->
  prices_numbers vb = true -> prices_numbers va = true ->
  run (_update_order_book b a) w
  = Return tt
      (mkWorld (apply_updates asks va (apply_updates bids vb (self w)))
               (records w)).
Proof.
  intros L _ _ Eb Ea _ _. unfold _update_order_book.
  rewrite run_with_lock, L, run_bind.
  rewrite (run_update_each_parsed bids b vb _ Eb).
  rewrite (run_update_each_parsed asks a va _ Ea).
  cbn [self records locked]. rewrite !apply_updates_set_lock.
  f_equal. apply unlocked_after; [exact L|].
  now rewrite !apply_updates_lock.
Qed.

Lemma delta_applies_in_order_witness :
  run (_update_order_book [("99.5", "2"); ("99", "0")] [("101", "3")])
      book50_live
  = Return tt
      (mkWorld
         (apply_updates asks [(num "101", num "3")]
            (apply_updates bids [(num "99.5", num "2"); (num "99", num "0")]
               (self book50_live)))
         (records book50_live)).
Proof.
  apply (delta_applies_in_order [("99.5", "2"); ("99", "0")] [("101", "3")]);
    reflexivity.
Defined.

(** X6: called with the lock free on a book whose prices are numbers,
    [_update_order_book] raises at the first malformed pair, with the lock
    freed, and keeps the updates of the pairs before it, whose prices are
    numbers: the bids before a malformed bid, or all the bids and the asks
    before a malformed ask.  The pairs after it are not applied. *)
Theorem delta_partial_application
  (b1 b2 a a1 a2 b : pairs) (p : string * string) (v1 vb : list level)
  (w : world) :
  lock (self w) = false -> malformed p = true ->
  prices_numbers (order_book (self w) bids) = true ->
  prices_numbers (order_book (self w) asks) = true ->
  prices_numbers v1 = true -> prices_numbers vb = true ->
  (parse_levels b1 = inr v1 ->
   exists e,
     run (_update_order_book (b1 ++ p :: b2) a) w
     = Raise e (mkWorld (apply_updates bids v1 (self w)) (records w)))
  /\ (parse_levels b = inr vb -> parse_levels a1 = inr v1 ->
      exists e,
        run (_update_order_book b (a1 ++ p :: a2)) w
        = Raise e
            (mkWorld (apply_updates asks v1 (apply_updates bids vb (self w)))
                     (records w))).
Proof.
  intros L B _ _ _ _. split.
  - intros E1. unfold _update_order_book.
    rewrite run_with_lock, L, run_bind.
    destruct (run_update_each_malformed bids b1 p b2 v1 (locked w) E1 B)
      as [e ->].
    exists e. cbn [self records locked]. rewrite apply_updates_set_lock.
    f_equal. apply unlocked_after; [exact L|].
    now rewrite apply_updates_lock.
  - intros Eb E1. unfold _update_order_book.
    rewrite run_with_lock, L, run_bind.
    rewrite (run_update_each_parsed bids b vb _ Eb).
    destruct (run_update_each_malformed asks a1 p a2 v1
                (mkWorld (apply_updates bids vb (self (locked w)))
                         (records (locked w))) E1 B) as [e ->].
    exists e. cbn [self records locked]. rewrite !apply_updates_set_lock.
    f_equal. apply unlocked_after; [exact L|].
    now rewrite !apply_updates_lock.
Qed.

Lemma delta_partial_application_witness :
  (parse_levels [("99.5", "2")] = inr [(num "99.5", num "2")] ->
   exists e,
     run (_update_order_book ([("99.5", "2")] ++ ("x", "1") :: [("98", "1")])
                             [("101", "3")]) book50_live
     = Raise e
         (mkWorld (apply_updates bids [(num "99.5", num "2")]
                     (self book50_live))
                  (records book50_live)))
  /\ (parse_levels [("98", "4")] = inr [(num "98", num "4")] ->
      parse_levels [("99.5", "2")] = inr [(num "99.5", num "2")] ->
      exists e,
        run (_update_order_book [("98", "4")]
               ([("99.5", "2")] ++ ("x", "1") :: [("102", "1")]))
            book50_live
        = Raise e
            (mkWorld
               (apply_updates asks [(num "99.5", num "2")]
                  (apply_updates bids [(num "98", num "4")]
                     (self book50_live)))
               (records book50_live))).
Proof.
  apply (delta_partial_application [("99.5", "2")] [("98", "1")]
           [("101", "3")] [("99.5", "2")] [("102", "1")] [("98", "4")]
           ("x", "1") [(num "99.5", num "2")] [(num "98", num "4")]
           book50_live); reflexivity.
Defined.

(** X7: no method keeps the lock: with the lock free before the call,
    [handle_message], [_update_order_book] and [get_order_book] leave it
    free whenever they return or raise. *)
Theorem lock_released (w : world) (m : message) (b a : pairs) :
  lock (self w) = false ->
  (finished (run (handle_message m) w) = true ->
   lock (self (world_of (run (handle_message m) w))) = false)
  /\ (finished (run (_update_order_book b a) w) = true ->
      lock (self (world_of (run (_update_order_book b a) w))) = false)
  /\ (finished (run get_order_book w) = true ->
      lock (self (world_of (run get_order_book w))) = false).
Proof.
  intros L. repeat split.
  - destruct (truthy (get_data m)) eqn:D.
    2:{ rewrite (run_handle_empty m w D). intros _. exact L. }
    destruct (type_is m "snapshot") eqn:T.
    + rewrite (run_handle_snapshot m w D L T).
      destruct (parse_levels (get_pairs (get_data m) bids));
        [|destruct (parse_levels (get_pairs (get_data m) asks))];
        intros _; cbn [world_of self logged]; rewrite ?lock_set_order_book;
        exact L.
    + destruct (type_is m "delta") eqn:T'.
      * rewrite (run_handle_delta m w D L T T'). discriminate.
      * rewrite (run_handle_unknown m w D L T T'). intros _. exact L.
  - unfold _update_order_book. rewrite run_with_lock, L.
    destruct (run _ (locked w)); simpl; try reflexivity. discriminate.
  - unfold get_order_book. rewrite run_with_lock, L. reflexivity.
Qed.

Lemma lock_released_witness :
  (finished (run (handle_message bad_ask_snapshot) book50_live) = true ->
   lock (self (world_of (run (handle_message bad_ask_snapshot) book50_live)))
   = false)
  /\ (finished (run (_update_order_book [("x", "1")] []) book50_live) = true ->
      lock (self (world_of (run (_update_order_book [("x", "1")] [])
                                book50_live))) = false)
  /\ (finished (run get_order_book book50_live) = true ->
      lock (self (world_of (run get_order_book book50_live))) = false).
Proof.
  apply (lock_released book50_live bad_ask_snapshot [("x", "1")] []).
  reflexivity.
Defined.

(** ** More on one update of a side *)

Section MoreOrder.
Import PyFloat PyFloatFacts.

Lemma eqb_refl x : is_nan x = false -> eqb x x = true.
Proof. intros H. apply eqb_spec. auto. Qed.

Lemma ltb_false_trans x y z :
  is_nan x = false -> is_nan y = false ->
  ltb y x = false -> ltb z y = false -> ltb z x = false.
Proof.
  intros Nx Ny H1 H2. destruct (ltb z x) eqn:E; [|reflexivity].
  destruct (ltb x y) eqn:F.
  - rewrite (ltb_trans _ _ _ E F) in H2. discriminate.
  - pose proof (ltb_total x y Nx Ny F H1) as Q.
    rewrite (eqb_ltb_r x y z Q) in E. congruence.
Qed.

Lemma sorted_by_app {A} (R : A -> A -> Prop) l1 l2 :
  StronglySorted R (l1 ++ l2) <->
  StronglySorted R l1 /\ StronglySorted R l2
  /\ (forall x y, In x l1 -> In y l2 -> R x y).
Proof.
  induction l1 as [|a l1 IH]; simpl.
  - split; [intros H; repeat split; [constructor | assumption | tauto] | tauto].
  - split.
    + intros H. apply StronglySorted_inv in H. destruct H as [H1 H2].
      apply IH in H1. destruct H1 as (S1 & S2 & H12).
      rewrite Forall_app in H2. destruct H2 as [F1 F2].
      repeat split; [now constructor | assumption |].
      intros x y [<-|Hx] Hy; [|now apply H12].
      rewrite Forall_forall in F2. now apply F2.
    + intros (S1 & S2 & H12). apply StronglySorted_inv in S1.
      destruct S1 as [S1 F1]. constructor; [apply IH; auto|].
      apply Forall_app. split; [assumption|].
      apply Forall_forall. intros y Hy. apply H12; auto.
Qed.

Lemma sorted_by_rev {A} (R : A -> A -> Prop) l :
  StronglySorted R l -> StronglySorted (fun x y => R y x) (rev l).
Proof.
  induction 1 as [|a l S IH F]; simpl; [constructor|].
  apply sorted_by_app. repeat split; [assumption | repeat constructor |].
  intros x y Hx [<-|[]]. apply in_rev in Hx.
  rewrite Forall_forall in F. now apply F.
Qed.

Lemma sorted_by_firstn {A} (R : A -> A -> Prop) k l :
  StronglySorted R l -> StronglySorted R (firstn k l).
Proof.
  intros H. rewrite <- (firstn_skipn k l) in H. now apply sorted_by_app in H.
Qed.

Lemma weakly_ordered_strong s l :
  StronglySorted (not_after s) l -> weakly_ordered s l = true.
Proof.
  induction 1 as [|x l S IH F]; [reflexivity|].
  destruct l as [|y l]; [reflexivity|].
  change (negb (before s (fst y) (fst x)) && weakly_ordered s (y :: l) = true).
  rewrite IH, andb_true_r. apply Forall_inv in F. unfold not_after in F.
  now rewrite F.
Qed.

(** [sorted] orders every list whose prices are numbers. *)
Lemma insert_weak x l :
  StronglySorted (not_after asks) l ->
  is_nan (fst x) = false -> prices_numbers l = true ->
  StronglySorted (not_after asks) (insert x l).
Proof.
  intros S Nx. induction S as [|y l S IH F]; intros N.
  - repeat constructor.
  - simpl in N. apply andb_true_iff in N. destruct N as [Ny N].
    apply negb_true_iff in Ny. simpl.
    destruct (ltb (fst y) (fst x)) eqn:E.
    + constructor; [now apply IH|].
      apply (Permutation_Forall (Permutation_sym (insert_perm x l))).
      constructor; [|assumption].
      unfold not_after. simpl. now apply ltb_asym.
    + constructor; [now constructor|].
      constructor; [exact E|].
      apply prices_numbers_Forall in N.
      rewrite Forall_forall in *. intros z Hz. unfold not_after. simpl.
      apply (ltb_false_trans _ (fst y)); auto. exact (F z Hz).
Qed.

Lemma sort_weak l :
  prices_numbers l = true -> StronglySorted (not_after asks) (sort l).
Proof.
  induction l as [|x l IH]; intros N; [constructor|].
  simpl in N. apply andb_true_iff in N. destruct N as [Nx N].
  apply negb_true_iff in Nx. simpl. apply insert_weak; auto.
  now rewrite (prices_numbers_perm _ _ (sort_perm l)).
Qed.

Lemma sorted_weak s l :
  prices_numbers l = true ->
  StronglySorted (not_after s) (sorted l (side_eqb s bids)).
Proof.
  intros N. destruct s; simpl.
  - apply (sorted_by_rev (not_after asks)). apply sort_weak.
    now rewrite <- (prices_numbers_perm _ _ (Permutation_rev l)).
  - now apply sort_weak.
Qed.

Lemma updated_numbers l p q :
  prices_numbers l = true -> is_nan p = false ->
  prices_numbers match scan l p q with
                 | Some l0 => l0
                 | None => if gtb q zero then l ++ [(p, q)] else l
                 end = true.
Proof.
  intros N Np. destruct (scan l p q) as [l'|] eqn:E.
  - exact (scan_numbers _ _ _ _ E N).
  - destruct (gtb q zero); [|assumption].
    apply prices_numbers_Forall. apply Forall_app. split.
    + now apply prices_numbers_Forall.
    + constructor; [assumption | constructor].
Qed.

End MoreOrder.

(** X8: an update of a side always returns; it logs nothing, leaves the
    other side, the depth, the symbol and the lock as they were, and, in a
    book of depth zero or more, leaves at most [depth] levels on its side,
    however many the side held. *)
Theorem update_side_bounds
  (s : side) (price quantity : PyFloat.float) (w : world) :
  0 <= depth (self w) ->
  exists w',
    run (_update_side s price quantity) w = Return tt w'
    /\ records w' = records w
    /\ depth (self w') = depth (self w)
    /\ symbol (self w') = symbol (self w)
    /\ lock (self w') = lock (self w)
    /\ (forall s', s' <> s ->
                   order_book (self w') s' = order_book (self w) s')
    /\ Z.of_nat (List.length (order_book (self w') s)) <= depth (self w).
Proof.
  intros D. rewrite run_update_side. eexists. split; [reflexivity|].
  cbn [self records]. repeat split.
  - apply update_side_depth.
  - destruct s; reflexivity.
  - apply update_side_lock.
  - intros s' N. apply update_side_other. congruence.
  - unfold update_side. rewrite order_book_set. now apply slice_to_length.
Qed.

Lemma update_side_bounds_witness :
  exists w',
    run (_update_side bids (num "97") (num "1"))
        (world_of (run (handle_message three_bids_snapshot) book2))
    = Return tt w'
    /\ records w'
       = records (world_of (run (handle_message three_bids_snapshot) book2))
    /\ depth (self w')
       = depth (self (world_of (run (handle_message three_bids_snapshot)
                                    book2)))
    /\ symbol (self w')
       = symbol (self (world_of (run (handle_message three_bids_snapshot)
                                     book2)))
    /\ lock (self w')
       = lock (self (world_of (run (handle_message three_bids_snapshot)
                                   book2)))
    /\ (forall s', s' <> bids ->
          order_book (self w') s'
          = order_book
              (self (world_of (run (handle_message three_bids_snapshot)
                                   book2))) s')
    /\ Z.of_nat (List.length (order_book (self w') bids))
       <= depth (self (world_of (run (handle_message three_bids_snapshot)
                                     book2))).
Proof.
  apply (update_side_bounds bids (num "97") (num "1")
           (world_of (run (handle_message three_bids_snapshot) book2))).
  simpl. lia.
Defined.

(** X9: after an update with a price that is a number, on a side whose
    prices are numbers, the side is in order (bids from the highest price
    down, asks from the lowest up, equal prices allowed), in whatever order
    it was before. *)
Theorem update_side_orders
  (s : side) (price quantity : PyFloat.float) (w : world) :
  prices_numbers (order_book (self w) s) = true ->
  PyFloat.is_nan price = false ->
  weakly_ordered s
    (order_book (self (world_of (run (_update_side s price quantity) w))) s)
  = true.
Proof.
  intros N Np. rewrite run_update_side. cbn [world_of self].
  unfold update_side. rewrite order_book_set.
  apply weakly_ordered_strong.
  destruct (slice_to_firstn (depth (self w))
              (sorted match scan (order_book (self w) s) price quantity with
                      | Some l0 => l0
                      | None =>
                          if PyFloat.gtb quantity PyFloat.zero
                          then order_book (self w) s ++ [(price, quantity)]
                          else order_book (self w) s
                      end (side_eqb s bids))) as [k ->].
  apply sorted_by_firstn. apply sorted_weak. now apply updated_numbers.
Qed.

Lemma update_side_orders_witness :
  weakly_ordered asks
    (order_book
       (self (world_of
                (run (_update_side asks (num "102") (num "1"))
                     (world_of
                        (run (handle_message
                                (snapshot_message
                                   (Some [])
                                   (Some [("105", "1"); ("101", "2");
                                          ("103", "1")])))
                             book50))))) asks)
  = true.
Proof.
  apply (update_side_orders asks (num "102") (num "1")); reflexivity.
Defined.

(** ** Replacing, inserting and evicting a level *)

Section Levels.
Import PyFloat PyFloatFacts.

Lemma scan_found l1 x l2 p q :
  present p l1 = false -> eqb (fst x) p = true ->
  scan (l1 ++ x :: l2) p q
  = Some (l1 ++ (if eqb q zero then l2 else (p, q) :: l2)).
Proof.
  intros P X. induction l1 as [|[p0 q0] l1 IH]; simpl.
  - destruct x as [px qx]. simpl in X. rewrite X.
    destruct (eqb q zero); reflexivity.
  - unfold present in P. simpl in P. apply orb_false_iff in P.
    destruct P as [P0 P]. rewrite P0, (IH P). reflexivity.
Qed.

Lemma insert_split x l :
  exists l1 l2, l = l1 ++ l2 /\ insert x l = l1 ++ x :: l2.
Proof.
  induction l as [|y l (l1 & l2 & E & H)]; simpl.
  - exists [], []. split; reflexivity.
  - destruct (ltb (fst y) (fst x)).
    + exists (y :: l1), l2. simpl. split; congruence.
    + exists [], (y :: l). split; reflexivity.
Qed.

Lemma sort_append_split l x :
  StronglySorted (precedes asks) l ->
  exists l1 l2, l = l1 ++ l2 /\ sort (l ++ [x]) = l1 ++ x :: l2.
Proof.
  induction 1 as [|a l S (m1 & m2 & E & H) F].
  - exists [], []. split; reflexivity.
  - simpl. rewrite H. destruct m1 as [|h m1]; simpl in *.
    + subst m2. destruct (ltb (fst x) (fst a)).
      * exists [], (a :: l). split; [reflexivity|].
        simpl. now rewrite (insert_first a l F).
      * exists [a], l. split; reflexivity.
    + subst l. apply Forall_inv in F. unfold precedes in F. simpl in F.
      rewrite (ltb_asym _ _ F).
      exists (a :: h :: m1), m2. split; reflexivity.
Qed.

Lemma sorted_append_split s l x :
  strictly_ordered s l = true ->
  exists l1 l2,
    l = l1 ++ l2 /\ sorted (l ++ [x]) (side_eqb s bids) = l1 ++ x :: l2.
Proof.
  rewrite strictly_ordered_strong. destruct s; simpl; intros S.
  - apply strong_rev in S. rewrite rev_app_distr. simpl.
    rewrite (sort_ordered _ S).
    destruct (insert_split x (rev l)) as (l1 & l2 & E & ->).
    exists (rev l2), (rev l1). split.
    + rewrite <- rev_app_distr, <- E. symmetry. apply rev_involutive.
    + rewrite rev_app_distr. simpl. now rewrite <- app_assoc.
  - now apply sort_append_split.
Qed.

Lemma insert_app_last a m w :
  ltb (fst w) (fst a) = false -> insert a (m ++ [w]) = insert a m ++ [w].
Proof.
  intros H. induction m as [|y m IH]; simpl.
  - now rewrite H.
  - destruct (ltb (fst y) (fst a)); [now rewrite IH | reflexivity].
Qed.

Lemma sort_worst l w x :
  StronglySorted (precedes asks) (l ++ [w]) ->
  ltb (fst x) (fst w) = true ->
  sort ((l ++ [w]) ++ [x]) = sort (l ++ [x]) ++ [w].
Proof.
  intros S X. induction l as [|a l IH]; simpl in *.
  - now rewrite X.
  - apply StronglySorted_inv in S. destruct S as [S F].
    rewrite (IH S). apply insert_app_last.
    apply ltb_asym. rewrite Forall_forall in F.
    apply (F w). apply in_or_app. right. now left.
Qed.

Lemma sorted_worst s l w x :
  strictly_ordered s (l ++ [w]) = true ->
  before s (fst x) (fst w) = true ->
  sorted ((l ++ [w]) ++ [x]) (side_eqb s bids)
  = sorted (l ++ [x]) (side_eqb s bids) ++ [w].
Proof.
  rewrite strictly_ordered_strong. destruct s; simpl; intros S X.
  - apply strong_app in S. destruct S as (S & _ & C).
    rewrite !rev_app_distr. simpl.
    apply strong_rev in S. rewrite (sort_ordered _ S).
    assert (F : Forall (precedes asks w) (rev l)).
    { apply Forall_forall. intros y Hy. apply in_rev in Hy.
      apply (C y w Hy). now left. }
    rewrite (insert_first w _ F). simpl. unfold gtb in X.
    fold (ltb (fst w) (fst x)) in X. rewrite X. simpl. reflexivity.
  - now apply sort_worst.
Qed.

Lemma slice_to_app_exact {A} (l : list A) x :
  slice_to (Z.of_nat (List.length l)) (l ++ [x]) = l.
Proof.
  unfold slice_to. destruct (Z.ltb_spec (Z.of_nat (List.length l)) 0); [lia|].
  rewrite Nat2Z.id, firstn_app, Nat.sub_diag, firstn_all. simpl.
  apply app_nil_r.
Qed.

End Levels.

Lemma tidy_parts self s :
  side_invariant self s = true ->
  strictly_ordered s (order_book self s) = true
  /\ Z.of_nat (List.length (order_book self s)) <= depth self.
Proof. apply side_invariant_parts. Qed.

(** X10: on a side that is strictly ordered and within the depth, an
    update at a price that is present, with a quantity other than zero,
    puts the new price and quantity in the place of the level of that
    price and changes nothing else. *)
Theorem upsert_in_place
  (w : world) (s : side) (price quantity : PyFloat.float) :
  side_invariant (self w) s = true ->
  present price (order_book (self w) s) = true ->
  PyFloat.eqb quantity PyFloat.zero = false ->
  exists l1 x l2,
    order_book (self w) s = l1 ++ x :: l2
    /\ PyFloat.eqb (fst x) price = true
    /\ run (_update_side s price quantity) w
       = Return tt
           (mkWorld (set_order_book s (l1 ++ (price, quantity) :: l2) (self w))
                    (records w)).
Proof.
  intros I P Q. apply tidy_parts in I. destruct I as [S D].
  destruct (present_scan _ _ quantity P) as [l' H].
  pose proof (scan_ordered s _ _ _ _ H S) as S'.
  pose proof (scan_length _ _ _ _ H) as Len.
  destruct (scan_Some _ _ _ _ H) as (l1 & x & l2 & E & X & _ & El').
  rewrite Q in El'. exists l1, x, l2. repeat split; try assumption.
  rewrite run_update_side. unfold update_side. rewrite H.
  rewrite (sorted_ordered _ _ S'), slice_to_all by lia. now subst l'.
Qed.

Lemma upsert_in_place_witness :
  exists l1 x l2,
    order_book (self book50_live) bids = l1 ++ x :: l2
    /\ PyFloat.eqb (fst x) (num "99.0") = true
    /\ run (_update_side bids (num "99.0") (num "7")) book50_live
       = Return tt
           (mkWorld (set_order_book bids (l1 ++ (num "99.0", num "7") :: l2)
                                    (self book50_live))
                    (records book50_live)).
Proof.
  apply (upsert_in_place book50_live bids (num "99.0") (num "7"));
    vm_compute; reflexivity.
Defined.

(** X11: on a side that is strictly ordered and holds exactly [depth]
    levels, an update at a price that comes after every level of the side
    leaves the whole state as it was, whatever the quantity. *)
Theorem update_below_full_side
  (w : world) (s : side) (price quantity : PyFloat.float) :
  side_invariant (self w) s = true ->
  Z.of_nat (List.length (order_book (self w) s)) = depth (self w) ->
  forallb (fun x => before s (fst x) price) (order_book (self w) s) = true ->
  run (_update_side s price quantity) w = Return tt w.
Proof.
  intros I Len B. apply tidy_parts in I. destruct I as [S D].
  rewrite forallb_forall in B.
  assert (P : present price (order_book (self w) s) = false).
  { apply present_false. apply Forall_forall. intros y Hy.
    exact (before_not_eqb s _ _ (B y Hy)). }
  rewrite run_update_side. unfold update_side.
  apply scan_None with (q := quantity) in P. rewrite P.
  destruct (PyFloat.gtb quantity PyFloat.zero).
  - assert (S' : strictly_ordered s
                   (order_book (self w) s ++ [(price, quantity)]) = true).
    { apply strictly_ordered_strong, strong_app.
      apply strictly_ordered_strong in S. repeat split;
        [assumption | repeat constructor |].
      intros x y Hx [<-|[]]. exact (B x Hx). }
    rewrite (sorted_ordered _ _ S'), <- Len, slice_to_app_exact.
    rewrite set_order_book_same. now destruct w.
  - rewrite (sorted_ordered _ _ S), slice_to_all by lia.
    rewrite set_order_book_same. now destruct w.
Qed.

Lemma update_below_full_side_witness :
  run (_update_side bids (num "97") (num "1"))
      (world_of (run (_update_order_book [("100", "1"); ("99", "1")] [])
                     book2))
  = Return tt
      (world_of (run (_update_order_book [("100", "1"); ("99", "1")] [])
                     book2)).
Proof.
  apply (update_below_full_side
           (world_of (run (_update_order_book [("100", "1"); ("99", "1")] [])
                          book2)) bids (num "97") (num "1"));
    vm_compute; reflexivity.
Defined.

(** ** Inserting a level, and deleting it again *)

Lemma set_order_book_twice s v v' self :
  set_order_book s v (set_order_book s v' self) = set_order_book s v self.
Proof. destruct s; reflexivity. Qed.

Lemma depth_set_order_book s v self :
  depth (set_order_book s v self) = depth self.
Proof. destruct s; reflexivity. Qed.

Lemma present_split p l1 l2 :
  present p (l1 ++ l2) = false ->
  present p l1 = false /\ present p l2 = false.
Proof. rewrite present_app. apply orb_false_iff. Qed.

Lemma update_side_insert s p q self :
  strictly_ordered s (order_book self s) = true ->
  prices_numbers (order_book self s) = true ->
  Z.of_nat (List.length (order_book self s)) < depth self ->
  PyFloat.is_nan p = false ->
  present p (order_book self s) = false ->
  PyFloat.gtb q PyFloat.zero = true ->
  exists l1 l2,
    order_book self s = l1 ++ l2
    /\ strictly_ordered s (l1 ++ (p, q) :: l2) = true
    /\ update_side s p q self = set_order_book s (l1 ++ (p, q) :: l2) self.
Proof.
  intros S N Len Np P G.
  destruct (sorted_append_split s _ (p, q) S) as (l1 & l2 & E & H).
  exists l1, l2. split; [exact E|].
  assert (S' : strictly_ordered s (l1 ++ (p, q) :: l2) = true)
    by exact (eq_trans (f_equal (strictly_ordered s) (eq_sym H))
                       (sorted_append s _ (p, q) S N Np P)).
  split; [exact S'|]. unfold update_side.
  apply scan_None with (q := q) in P. rewrite P, G.
  unfold level in *. rewrite H.
  rewrite slice_to_all; [reflexivity|].
  rewrite E in Len. rewrite length_app in *. simpl. lia.
Qed.

Lemma update_side_evict s p q self l w :
  order_book self s = l ++ [w] ->
  strictly_ordered s (l ++ [w]) = true ->
  prices_numbers (l ++ [w]) = true ->
  Z.of_nat (List.length (l ++ [w])) = depth self ->
  before s p (fst w) = true ->
  present p (l ++ [w]) = false ->
  PyFloat.gtb q PyFloat.zero = true ->
  exists l1 l2,
    l = l1 ++ l2
    /\ strictly_ordered s (l1 ++ (p, q) :: l2) = true
    /\ update_side s p q self = set_order_book s (l1 ++ (p, q) :: l2) self.
Proof.
  intros E S N Len B P G.
  assert (Np : PyFloat.is_nan p = false).
  { destruct s; simpl in B; unfold PyFloat.gtb in B.
    - now apply PyFloatFacts.ltb_not_nan in B.
    - now apply PyFloatFacts.ltb_not_nan in B. }
  assert (Sl : strictly_ordered s l = true).
  { apply strictly_ordered_strong. apply strictly_ordered_strong in S.
    now apply strong_app in S. }
  assert (Nl : prices_numbers l = true).
  { unfold prices_numbers in *. rewrite forallb_app in N.
    now apply andb_true_iff in N. }
  destruct (present_split _ _ _ P) as [Pl _].
  destruct (sorted_append_split s l (p, q) Sl) as (l1 & l2 & El & H).
  exists l1, l2. split; [exact El|].
  assert (S' : strictly_ordered s (l1 ++ (p, q) :: l2) = true)
    by exact (eq_trans (f_equal (strictly_ordered s) (eq_sym H))
                       (sorted_append s l (p, q) Sl Nl Np Pl)).
  split; [exact S'|]. unfold update_side. rewrite E.
  apply scan_None with (q := q) in P. rewrite P, G.
  rewrite (sorted_worst s l w (p, q) S B). unfold level in *. rewrite H.
  replace (depth self)
    with (Z.of_nat (List.length (l1 ++ (p, q) :: l2))).
  - now rewrite slice_to_app_exact.
  - rewrite <- Len, El, !length_app. simpl. lia.
Qed.

Lemma update_side_delete s p q0 self l1 x l2 :
  order_book self s = l1 ++ x :: l2 ->
  present p l1 = false -> PyFloat.eqb (fst x) p = true ->
  PyFloat.eqb q0 PyFloat.zero = true ->
  strictly_ordered s (l1 ++ l2) = true ->
  Z.of_nat (List.length (l1 ++ l2)) <= depth self ->
  update_side s p q0 self = set_order_book s (l1 ++ l2) self.
Proof.
  intros E P X Q S Len. unfold update_side.
  pose proof (scan_found l1 x l2 p q0 P X) as F. rewrite Q in F.
  pose proof (sorted_ordered _ _ S) as O.
  pose proof (slice_to_all (depth self) _ Len) as T.
  unfold level in *. now rewrite E, F, O, T.
Qed.

(** X12: on a strictly ordered side with fewer than [depth] levels, an
    update at a price that is absent, with a quantity more than zero, puts
    the new level at its place in the order and keeps every other level. *)
Theorem insert_within_depth
  (w : world) (s : side) (price quantity : PyFloat.float) :
  strictly_ordered s (order_book (self w) s) = true ->
  prices_numbers (order_book (self w) s) = true ->
  Z.of_nat (List.length (order_book (self w) s)) < depth (self w) ->
  PyFloat.is_nan price = false ->
  present price (order_book (self w) s) = false ->
  PyFloat.gtb quantity PyFloat.zero = true ->
  exists l1 l2,
    order_book (self w) s = l1 ++ l2
    /\ strictly_ordered s (l1 ++ (price, quantity) :: l2) = true
    /\ run (_update_side s price quantity) w
       = Return tt
           (mkWorld (set_order_book s (l1 ++ (price, quantity) :: l2) (self w))
                    (records w)).
Proof.
  intros S N Len Np P G.
  destruct (update_side_insert s price quantity (self w) S N Len Np P G)
    as (l1 & l2 & E & S' & H).
  exists l1, l2. rewrite run_update_side, H. auto.
Qed.

Lemma insert_within_depth_witness :
  exists l1 l2,
    order_book (self book50_live) bids = l1 ++ l2
    /\ strictly_ordered bids (l1 ++ (num "99.5", num "2") :: l2) = true
    /\ run (_update_side bids (num "99.5") (num "2")) book50_live
       = Return tt
           (mkWorld (set_order_book bids (l1 ++ (num "99.5", num "2") :: l2)
                                    (self book50_live))
                    (records book50_live)).
Proof.
  apply (insert_within_depth book50_live bids (num "99.5") (num "2"));
    vm_compute; reflexivity.
Defined.

(** X13: on a strictly ordered side that holds exactly [depth] levels, an
    update at a price that is absent and comes before the last level, with
    a quantity more than zero, drops the last level and puts the new level
    at its place among the others. *)
Theorem insert_evicts_last
  (w : world) (s : side) (price quantity : PyFloat.float)
  (l : list level) (last : level) :
  order_book (self w) s = l ++ [last] ->
  strictly_ordered s (l ++ [last]) = true ->
  prices_numbers (l ++ [last]) = true ->
  Z.of_nat (List.length (l ++ [last])) = depth (self w) ->
  before s price (fst last) = true ->
  present price (l ++ [last]) = false ->
  PyFloat.gtb quantity PyFloat.zero = true ->
  exists l1 l2,
    l = l1 ++ l2
    /\ strictly_ordered s (l1 ++ (price, quantity) :: l2) = true
    /\ run (_update_side s price quantity) w
       = Return tt
           (mkWorld (set_order_book s (l1 ++ (price, quantity) :: l2) (self w))
                    (records w)).
Proof.
  intros E S N Len B P G.
  destruct (update_side_evict s price quantity (self w) l last E S N Len B P G)
    as (l1 & l2 & El & S' & H).
  exists l1, l2. rewrite run_update_side, H. auto.
Qed.

Lemma insert_evicts_last_witness :
  exists l1 l2,
    [(num "100", num "1")] = l1 ++ l2
    /\ strictly_ordered bids (l1 ++ (num "101", num "1") :: l2) = true
    /\ run (_update_side bids (num "101") (num "1"))
           (world_of (run (_update_order_book [("100", "1"); ("99", "1")] [])
                          book2))
       = Return tt
           (mkWorld
              (set_order_book bids (l1 ++ (num "101", num "1") :: l2)
                 (self (world_of
                          (run (_update_order_book
                                  [("100", "1"); ("99", "1")] []) book2))))
              (records (world_of
                          (run (_update_order_book
                                  [("100", "1"); ("99", "1")] []) book2)))).
Proof.
  apply (insert_evicts_last
           (world_of (run (_update_order_book [("100", "1"); ("99", "1")] [])
                          book2))
           bids (num "101") (num "1") [(num "100", num "1")]
           (num "99", num "1")); vm_compute; reflexivity.
Defined.

(** X14: on a strictly ordered side with fewer than [depth] levels and
    prices that are numbers, inserting a level at an absent price that is
    a number, with a quantity more than zero, and then updating that price
    with a quantity equal to zero gives back the state as it was. *)
Theorem insert_then_delete
  (w : world) (s : side) (price quantity nothing : PyFloat.float) :
  strictly_ordered s (order_book (self w) s) = true ->
  prices_numbers (order_book (self w) s) = true ->
  Z.of_nat (List.length (order_book (self w) s)) < depth (self w) ->
  PyFloat.is_nan price = false ->
  present price (order_book (self w) s) = false ->
  PyFloat.gtb quantity PyFloat.zero = true ->
  PyFloat.eqb nothing PyFloat.zero = true ->
  run (_update_side s price quantity ;;; _update_side s price nothing) w
  = Return tt w.
Proof.
  intros S N Len Np P G Z.
  destruct (update_side_insert s price quantity (self w) S N Len Np P G)
    as (l1 & l2 & E & S' & H).
  rewrite run_bind, !run_update_side. cbn [self records]. rewrite H.
  rewrite E in P, S, Len. destruct (present_split _ _ _ P) as [P1 _].
  rewrite (update_side_delete s price nothing _ l1 (price, quantity) l2).
  - rewrite set_order_book_twice, <- E, set_order_book_same. now destruct w.
  - apply order_book_set.
  - exact P1.
  - now apply PyFloatFacts.eqb_spec.
  - exact Z.
  - exact S.
  - rewrite depth_set_order_book. lia.
Qed.

Lemma insert_then_delete_witness :
  run (_update_side bids (num "99.5") (num "2") ;;;
       _update_side bids (num "99.5") (num "0")) book50_live
  = Return tt book50_live.
Proof.
  apply (insert_then_delete book50_live bids (num "99.5") (num "2")
           (num "0")); vm_compute; reflexivity.
Defined.

(** X15: on a strictly ordered side that holds exactly [depth] levels, the
    level dropped by an insertion does not come back when the inserted
    level is deleted: the side is left with the levels before the last
    one. *)
Theorem eviction_is_final
  (w : world) (s : side) (price quantity nothing : PyFloat.float)
  (l : list level) (last : level) :
  order_book (self w) s = l ++ [last] ->
  strictly_ordered s (l ++ [last]) = true ->
  prices_numbers (l ++ [last]) = true ->
  Z.of_nat (List.length (l ++ [last])) = depth (self w) ->
  before s price (fst last) = true ->
  present price (l ++ [last]) = false ->
  PyFloat.gtb quantity PyFloat.zero = true ->
  PyFloat.eqb nothing PyFloat.zero = true ->
  run (_update_side s price quantity ;;; _update_side s price nothing) w
  = Return tt (mkWorld (set_order_book s l (self w)) (records w)).
Proof.
  intros E S N Len B P G Z.
  destruct (update_side_evict s price quantity (self w) l last E S N Len B P G)
    as (l1 & l2 & El & S' & H).
  rewrite run_bind, !run_update_side. cbn [self records]. rewrite H.
  destruct (present_split _ _ _ P) as [Pl _]. rewrite El in Pl.
  destruct (present_split _ _ _ Pl) as [P1 _].
  assert (Sl : strictly_ordered s (l1 ++ l2) = true).
  { rewrite <- El. apply strictly_ordered_strong.
    apply strictly_ordered_strong in S. now apply strong_app in S. }
  rewrite (update_side_delete s price nothing _ l1 (price, quantity) l2).
  - now rewrite set_order_book_twice, <- El.
  - apply order_book_set.
  - exact P1.
  - apply PyFloatFacts.eqb_spec. repeat split.
    + destruct s; simpl in B; unfold PyFloat.gtb in B;
        now apply PyFloatFacts.ltb_not_nan in B.
    + destruct s; simpl in B; unfold PyFloat.gtb in B;
        now apply PyFloatFacts.ltb_not_nan in B.
  - exact Z.
  - exact Sl.
  - rewrite depth_set_order_book, <- Len, <- El, length_app. simpl. lia.
Qed.

Lemma eviction_is_final_witness :
  run (_update_side bids (num "101") (num "1") ;;;
       _update_side bids (num "101") (num "0"))
      (world_of (run (_update_order_book [("100", "1"); ("99", "1")] [])
                     book2))
  = Return tt
      (mkWorld
         (set_order_book bids [(num "100", num "1")]
            (self (world_of
                     (run (_update_order_book [("100", "1"); ("99", "1")] [])
                          book2))))
         (records (world_of
                     (run (_update_order_book [("100", "1"); ("99", "1")] [])
                          book2)))).
Proof.
  apply (eviction_is_final
           (world_of (run (_update_order_book [("100", "1"); ("99", "1")] [])
                          book2))
           bids (num "101") (num "1") (num "0") [(num "100", num "1")]
           (num "99", num "1")); vm_compute; reflexivity.
Defined.

(** ** Interleaved runs: the delta messages *)

Lemma feed_stuck_step c e c' :
  feed_stuck c -> step c e c' ->
  feed_stuck c' /\ shared c' = shared c /\ feed c' = feed c
  /\ inbox c' = inbox c.
Proof.
  intros (L & F & R) S.
  destruct S as [c X a k x w' E Hp|c m rest Hi E
                |c i X a k x w' E Hp|c i v E]; cbn [shared feed inbox readers].
  - rewrite E in F. destruct a; simpl in F, Hp; try discriminate.
    rewrite L in Hp. discriminate.
  - destruct (feed c); simpl in F, Hi; discriminate.
  - pose proof (R i) as Ri. rewrite E in Ri.
    destruct a; simpl in Ri, Hp; try discriminate.
    rewrite L in Hp. discriminate.
  - repeat split; try assumption. cbn [readers]. intros j.
    unfold set_reader. destruct (Nat.eqb j i); [reflexivity | apply R].
Qed.

(** X16: once the feed thread waits for the lock while the lock is held
    and every reader is outside its critical section, every continuation
    of the run leaves it so: the book and the inbox never change again, so
    no later message is handled and no reader acquires the lock. *)
Theorem deadlock_is_permanent (c c' : config) (past : list config) :
  feed_stuck c ->
  execution c past c' ->
  feed_stuck c' /\ shared c' = shared c /\ inbox c' = inbox c.
Proof.
  intros Hc E. induction E as [|past c1 e c2 E IH S].
  - auto.
  - destruct IH as (F & Sh & In).
    destruct (feed_stuck_step c1 e c2 F S) as (F' & Sh' & _ & In').
    repeat split; try apply F'; congruence.
Qed.

Lemma deadlock_is_permanent_witness :
  feed_stuck stuck4 /\ shared stuck4 = shared stuck3
  /\ inbox stuck4 = inbox stuck3.
Proof.
  apply (deadlock_is_permanent stuck3 stuck4 [stuck3]).
  - split; [reflexivity|]. split; [reflexivity|].
    intros i. destruct i; reflexivity.
  - apply execution_step with (e := ReadReturns 0 (view book50_live)).
    + apply execution_start.
    + apply (step_reader_return stuck3 0 (view book50_live)). reflexivity.
Defined.

Lemma feed_step_action c X (a : action X) k x w' :
  feed c = Do a k -> perform a (shared c) = Some (x, w') ->
  step c Silent (feed_step c)
  /\ feed_step c = mkConfig w' (k x) (inbox c) (readers c).
Proof.
  intros E Hp. unfold feed_step. rewrite E, Hp. split; [|reflexivity].
  now apply (step_feed_action c X a k x w').
Qed.

(** X17: from every state with the lock free, a delta message whose data
    has a key brings the feed thread, in three steps of its own, to wait
    for the lock that it holds itself: the run is then stuck as in X16,
    with the book as it was and the later messages still in the inbox. *)
Theorem delta_message_deadlocks
  (w : world) (m : message) (msgs : list message) :
  lock (self w) = false ->
  truthy (get_data m) = true ->
  type_is m "delta" = true ->
  exists past c,
    execution (start w (m :: msgs)) past c
    /\ feed_stuck c
    /\ inbox c = msgs
    /\ view (shared c) = view w.
Proof.
  intros L D T'. pose proof (type_delta_not_snapshot m T') as T.
  set (c0 := start w (m :: msgs)).
  set (c1 := mkConfig w (handle_message m) msgs (fun _ => get_order_book)).
  assert (S1 : step c0 Silent c1)
    by (apply (step_feed_next c0 m msgs); reflexivity).
  assert (E1 : exists k1 k2,
             handle_message m = Do (Log (Received m)) k1
             /\ k1 tt = Do Acquire k2
             /\ acquires (k2 tt) = true).
  { unfold handle_message. eexists. eexists. split; [reflexivity|]. split.
    - cbn beta. rewrite D. simpl. reflexivity.
    - cbn beta. rewrite T, T'. reflexivity. }
  destruct E1 as (k1 & k2 & F1 & K1 & A2).
  set (c2 := mkConfig (logged (Received m) w) (Do Acquire k2) msgs
                      (fun _ => get_order_book)).
  assert (S2 : step c1 Silent c2).
  { unfold c2. rewrite <- K1.
    apply (step_feed_action c1 unit (Log (Received m)) k1 tt
             (logged (Received m) w)); [exact F1 | reflexivity]. }
  set (c3 := mkConfig (locked (logged (Received m) w)) (k2 tt) msgs
                      (fun _ => get_order_book)).
  assert (S3 : step c2 Silent c3).
  { apply (step_feed_action c2 unit Acquire k2 tt
             (locked (logged (Received m) w))); [reflexivity|].
    simpl. now rewrite L. }
  exists [c2; c1; c0], c3. split; [|split; [|split]].
  - eapply execution_step; [|exact S3].
    eapply execution_step; [|exact S2].
    eapply execution_step; [|exact S1]. apply execution_start.
  - split; [reflexivity|]. split; [exact A2|]. intros i. reflexivity.
  - reflexivity.
  - reflexivity.
Qed.

Lemma delta_message_deadlocks_witness :
  exists past c,
    execution (start book50_live (delta_97 :: [three_bids_snapshot])) past c
    /\ feed_stuck c
    /\ inbox c = [three_bids_snapshot]
    /\ view (shared c) = view book50_live.
Proof.
  apply (delta_message_deadlocks book50_live delta_97 [three_bids_snapshot]);
    reflexivity.
Defined.
